(** * gemara-mcp: the lexicon cache and the artifact validator

    A shallow embedding of [internal/tool/lexicon.go] and
    [internal/tool/resource.go] (the resource handler and, in its second
    part, the validator).

    The Go functions talk to the process-wide cache variables, to the wall
    clock, to the network and to the CUE SDK.  Each function is embedded as a
    program over the operations it performs (a finite tree of events); a
    handler gives the events their meaning.  The same program is then run
    sequentially ([run]), or interleaved with other calls statement by
    statement ([exec]). *)

From Stdlib Require Import ZArith List String Ascii Bool Lia.
From Stdlib Require Import DecimalString DecimalPos DecimalZ.
Import ListNotations.

Local Open Scope string_scope.
Local Open Scope Z_scope.

(** ** Errors and results *)

(** A Go [error] is kept as its message, the text of [err.Error()].
    [fmt.Errorf("prefix: %w", err)] is the prefix followed by the message of
    the wrapped error. *)
Definition error := string.

(** The pair [(value, error)] a Go function returns, with exactly one side
    meaningful. *)
Inductive Result (A : Type) : Type :=
| Ok (a : A)
| Err (e : error).

Arguments Ok {A} a.
Arguments Err {A} e.

Definition isErr {A} (r : Result A) : bool :=
  match r with
  | Ok _ => false
  | Err _ => true
  end.

Definition isOk {A} (r : Result A) : bool := negb (isErr r).

(** ** Programs over events *)

(** A program performing events of signature [E] and returning an [A].  The
    Go functions embedded here have no loops, so the trees are finite. *)
Inductive Prog (E : Type -> Type) (A : Type) : Type :=
| Ret (a : A)
| Vis (X : Type) (e : E X) (k : X -> Prog E A).

Arguments Ret {E A} a.
Arguments Vis {E A X} e k.

Fixpoint bind {E A B} (p : Prog E A) (f : A -> Prog E B) : Prog E B :=
  match p with
  | Ret a => f a
  | Vis e k => Vis e (fun x => bind (k x) f)
  end.

Definition trigger {E X} (e : E X) : Prog E X := Vis e (fun x => Ret x).

Declare Scope prog_scope.
Delimit Scope prog_scope with prog.
Notation "x <- p ;; q" := (bind p (fun x => q))
  (at level 61, p at next level, right associativity) : prog_scope.
Notation "p ;; q" := (bind p (fun _ => q))
  (at level 61, right associativity) : prog_scope.
Local Open Scope prog_scope.

(** Go's short-circuit operators on conditions that perform events: the right
    operand runs only when the left one does not decide. *)
Definition and_then {E} (b : bool) (p : Prog E bool) : Prog E bool :=
  if b then p else Ret false.

Definition or_else {E} (b : bool) (p : Prog E bool) : Prog E bool :=
  if b then Ret true else p.

(** ** Time *)

Module time.

(** A [time.Time] is the count of nanoseconds since the zero instant
    (January 1, year 1, 00:00:00 UTC); the zero value of the type is that
    instant.  The wall clock and the monotonic clock reading of a Go [Time]
    are not told apart: the process has one clock. *)
Definition Time := Z.

(** A [time.Duration] is an [int64] count of nanoseconds. *)
Definition Duration := Z.

Definition minDuration : Duration := - 2 ^ 63.
Definition maxDuration : Duration := 2 ^ 63 - 1.

Definition Nanosecond : Duration := 1.
Definition Microsecond : Duration := 1000 * Nanosecond.
Definition Millisecond : Duration := 1000 * Microsecond.
Definition Second : Duration := 1000 * Millisecond.
Definition Minute : Duration := 60 * Second.
Definition Hour : Duration := 60 * Minute.

Definition zero : Time := 0.

Definition IsZero (t : Time) : bool := t =? 0.

(** [t.Sub(u)]: the duration [t-u], saturated at the largest and smallest
    [Duration] when the difference does not fit. *)
Definition Sub (t u : Time) : Duration :=
  let d := t - u in
  if maxDuration <? d then maxDuration
  else if d <? minDuration then minDuration
  else d.

End time.

(** ** Strings *)

Module strings.

(** [strings.HasPrefix(s, prefix)]. *)
Fixpoint HasPrefix (s prefix : string) {struct prefix} : bool :=
  match prefix with
  | EmptyString => true
  | String p prefix' =>
      match s with
      | EmptyString => false
      | String c s' => Ascii.eqb c p && HasPrefix s' prefix'
      end
  end.

(** [fmt.Sprintf("%d", n)]. *)
Definition itoa (n : Z) : string := NilZero.string_of_int (Z.to_int n).

Definition byte (c : ascii) : N := N_of_ascii c.

(** White space as [unicode.IsSpace] has it, by UTF-8 encoding.  One byte:
    tab, line feed, vertical tab, form feed, carriage return, space. *)
Definition asciiSpace (c : ascii) : bool :=
  let n := byte c in
  ((9 <=? n) && (n <=? 13) || (n =? 32))%N.

(** Two bytes: U+0085 (NEL) and U+00A0 (NBSP). *)
Definition space2 (a b : ascii) : bool :=
  ((byte a =? 194) && ((byte b =? 133) || (byte b =? 160)))%N.

(** Three bytes: U+1680, U+2000..U+200A, U+2028, U+2029, U+202F, U+205F,
    U+3000. *)
Definition space3 (a b c : ascii) : bool :=
  let '(x, y, z) := (byte a, byte b, byte c) in
  ((x =? 225) && (y =? 154) && (z =? 128)
   || (x =? 226) && (y =? 128)
      && ((128 <=? z) && (z <=? 138) || (z =? 168) || (z =? 169) || (z =? 175))
   || (x =? 226) && (y =? 129) && (z =? 159)
   || (x =? 227) && (y =? 128) && (z =? 128))%N.

(** [strings.TrimLeftFunc(s, unicode.IsSpace)]: runes are decoded from the
    front; a byte that starts no white-space rune stops the scan. *)
Fixpoint TrimLeft (s : string) : string :=
  match s with
  | EmptyString => EmptyString
  | String a r1 =>
      if asciiSpace a then TrimLeft r1
      else
        match r1 with
        | EmptyString => s
        | String b r2 =>
            if space2 a b then TrimLeft r2
            else
              match r2 with
              | EmptyString => s
              | String c r3 => if space3 a b c then TrimLeft r3 else s
              end
        end
  end.

(** The same scan over the reversed string: the last rune is decoded from
    the back, so its bytes are met last byte first. *)
Fixpoint TrimLeftRev (s : string) : string :=
  match s with
  | EmptyString => EmptyString
  | String c r1 =>
      if asciiSpace c then TrimLeftRev r1
      else
        match r1 with
        | EmptyString => s
        | String b r2 =>
            if space2 b c then TrimLeftRev r2
            else
              match r2 with
              | EmptyString => s
              | String a r3 => if space3 a b c then TrimLeftRev r3 else s
              end
        end
  end.

Fixpoint rev_append (s acc : string) : string :=
  match s with
  | EmptyString => acc
  | String c r => rev_append r (String c acc)
  end.

Definition rev (s : string) : string := rev_append s EmptyString.

(** [strings.TrimRightFunc(s, unicode.IsSpace)]. *)
Definition TrimRight (s : string) : string := rev (TrimLeftRev (rev s)).

(** [strings.TrimSpace(s)]. *)
Definition TrimSpace (s : string) : string := TrimRight (TrimLeft s).

(** [strings.Split(s, sep)] for a separator of one byte, the only use the
    source makes of it.  The empty string splits into one empty piece. *)
Fixpoint Split (s : string) (sep : ascii) : list string :=
  match s with
  | EmptyString => [EmptyString]
  | String c r =>
      if Ascii.eqb c sep then EmptyString :: Split r sep
      else
        match Split r sep with
        | h :: t => String c h :: t
        | [] => [String c EmptyString]
        end
  end.

(** [strings.Contains(s, substr)]. *)
Fixpoint Contains (s substr : string) : bool :=
  HasPrefix s substr
  || match s with
     | EmptyString => false
     | String _ r => Contains r substr
     end.

Definition isEmpty (s : string) : bool :=
  match s with
  | EmptyString => true
  | String _ _ => false
  end.

End strings.

Definition LF : ascii := "010"%char.

(** ** The lexicon: data (lexicon.go, resource.go) *)

Definition lexiconURL : string :=
  "https://raw.githubusercontent.com/gemaraproj/gemara/main/docs/lexicon.yaml".

Definition httpTimeout : time.Duration := 30 * time.Second.

(** Cache for 24 hours since lexicon changes infrequently. *)
Definition lexiconCacheTTL : time.Duration := 24 * time.Hour.

Definition LexiconResourceURI : string :=
  "https://gemara.openssf.org/model/02-definitions".
Definition LexiconResourceURIAlias : string := "gemara://lexicon".
Definition lexiconResourceURI : string := LexiconResourceURI.

(** [LexiconEntry] represents a single term in the Gemara Lexicon.  (The Go
    field [Definition] is [Definition_] here: the name is reserved.)  A slice
    is a list; [nil] and the empty slice are both [[]], the source only asks
    a slice for its length and its elements. *)
Record LexiconEntry : Type := {
  Term : string;
  Definition_ : string;
  References : list string
}.

Record InputGetLexicon : Type := { Refresh : bool }.

Record OutputGetLexicon : Type := {
  Entries : list LexiconEntry;
  Source : string;
  Cached : bool
}.

Module mcp.

(** [req.Params.URI], the one field of the request the handler reads. *)
Record ReadResourceRequest : Type := { Params_URI : string }.

Record ResourceContents : Type := {
  URI : string;
  MIMEType : string;
  Text : string
}.

Record ReadResourceResult : Type := { Contents : list ResourceContents }.

End mcp.

Module http.

Definition StatusOK : Z := 200.

(** How far one GET got: [http.NewRequestWithContext] failed, [client.Do]
    failed, or a response came back with its status code and what
    [io.ReadAll(resp.Body)] returned. *)
Inductive Exchange : Type :=
| RequestError (e : error)
| TransportError (e : error)
| Response (StatusCode : Z) (Body : Result string).

End http.

(** The decoders of the libraries the package imports: goccy/go-yaml and
    encoding/json at the type [[]LexiconEntry]. *)
Class Codec : Type := {
  yaml_Unmarshal : string -> Result (list LexiconEntry);
  json_Marshal : list LexiconEntry -> Result string;
  json_Unmarshal : string -> Result (list LexiconEntry)
}.

(** ** The lexicon: events *)

(** What the lexicon functions do to the world: reads and writes of the two
    package variables [lexiconCache] and [lexiconCacheTime], one statement
    each, readings of the clock, and GET requests. *)
Inductive LexE : Type -> Type :=
| LoadCache : LexE (list LexiconEntry)
| StoreCache (entries : list LexiconEntry) : LexE unit
| LoadCacheTime : LexE time.Time
| StoreCacheTime (t : time.Time) : LexE unit
| Now : LexE time.Time
| Get (url : string) : LexE http.Exchange.

(** [time.Since(t)] is [time.Now().Sub(t)]. *)
Definition time_Since (t : time.Time) : Prog LexE time.Duration :=
  now <- trigger Now ;;
  Ret (time.Sub now t).

(** ** The lexicon: the functions *)

Section Lexicon.

Context {codec : Codec}.

(** What [fetchLexiconFromURL] makes of the exchange. *)
Definition fetched (resp : http.Exchange) : Result (list LexiconEntry) :=
  match resp with
  | http.RequestError e => Err ("failed to create request: " ++ e)
  | http.TransportError e => Err ("failed to fetch lexicon: " ++ e)
  | http.Response StatusCode Body =>
      if negb (StatusCode =? http.StatusOK) then
        Err ("unexpected status code: " ++ strings.itoa StatusCode)
      else
        match Body with
        | Err e => Err ("failed to read response body: " ++ e)
        | Ok body =>
            match yaml_Unmarshal body with
            | Err e => Err ("failed to parse YAML: " ++ e)
            | Ok entries => Ok entries
            end
        end
  end.

(** [fetchLexiconFromURL] fetches the lexicon from the given URL. *)
Definition fetchLexiconFromURL (url : string)
  : Prog LexE (Result (list LexiconEntry)) :=
  resp <- trigger (Get url) ;;
  Ret (fetched resp).

(** [HandleLexiconResource] reads the cached Lexicon resource. *)
Definition HandleLexiconResource (req : mcp.ReadResourceRequest)
  : Prog LexE (Result mcp.ReadResourceResult) :=
  (* Ensure lexicon is loaded by fetching if cache is empty or expired *)
  cache <- trigger LoadCache ;;
  stale <- or_else (Nat.eqb (List.length cache) 0)
             (t <- trigger LoadCacheTime ;;
              or_else (time.IsZero t)
                (t' <- trigger LoadCacheTime ;;
                 age <- time_Since t' ;;
                 Ret (lexiconCacheTTL <=? age))) ;;
  loaded <- (if stale then
               r <- fetchLexiconFromURL lexiconURL ;;
               match r with
               | Err e => Ret (Err ("failed to fetch lexicon: " ++ e))
               | Ok entries =>
                   (* Update cache *)
                   trigger (StoreCache entries) ;;
                   now <- trigger Now ;;
                   trigger (StoreCacheTime now) ;;
                   Ret (Ok tt)
               end
             else Ret (Ok tt)) ;;
  match loaded with
  | Err e => Ret (Err e)
  | Ok _ =>
      (* Marshal lexicon to JSON *)
      cache <- trigger LoadCache ;;
      match json_Marshal cache with
      | Err e => Ret (Err ("failed to marshal lexicon: " ++ e))
      | Ok lexiconJSON =>
          (* Use the requested URI in the response *)
          let requestedURI :=
            if strings.isEmpty (mcp.Params_URI req) then LexiconResourceURI
            else mcp.Params_URI req in
          Ret (Ok {| mcp.Contents :=
                       [ {| mcp.URI := requestedURI;
                            mcp.MIMEType := "application/json";
                            mcp.Text := lexiconJSON |} ] |})
      end
  end.

(** [GetLexicon] retrieves the Gemara Lexicon using the resource handler.
    Of the Go triple [(nil, output, err)] the last two are kept. *)
Definition GetLexicon (input : InputGetLexicon)
  : Prog LexE (Result OutputGetLexicon) :=
  if Refresh input then
    (* If refresh is requested, fetch fresh data and update cache *)
    r <- fetchLexiconFromURL lexiconURL ;;
    match r with
    | Err e => Ret (Err e)
    | Ok entries =>
        trigger (StoreCache entries) ;;
        now <- trigger Now ;;
        trigger (StoreCacheTime now) ;;
        Ret (Ok {| Entries := entries; Source := lexiconURL; Cached := false |})
    end
  else
    (* Otherwise, use the resource handler *)
    let req := {| mcp.Params_URI := lexiconResourceURI |} in
    r <- HandleLexiconResource req ;;
    match r with
    | Err e => Ret (Err ("failed to read lexicon resource: " ++ e))
    | Ok result =>
        match mcp.Contents result with
        | [] => Ret (Err "resource returned no contents")
        | c0 :: _ =>
            match json_Unmarshal (mcp.Text c0) with
            | Err e => Ret (Err ("failed to parse lexicon JSON: " ++ e))
            | Ok entries =>
                (* Determine if data was cached (check if it was already
                   cached before resource call) *)
                t <- trigger LoadCacheTime ;;
                wasCached <- and_then (negb (time.IsZero t))
                               (t' <- trigger LoadCacheTime ;;
                                age <- time_Since t' ;;
                                Ret (age <? lexiconCacheTTL)) ;;
                Ret (Ok {| Entries := entries;
                           Source := lexiconURL;
                           Cached := wasCached |})
            end
        end
    end.

(** [getLexiconWithURL] retrieves the lexicon from the specified URL (used
    for testing). *)
Definition getLexiconWithURL (input : InputGetLexicon) (url : string)
  : Prog LexE (Result OutputGetLexicon) :=
  hit <- and_then (negb (Refresh input))
           (t <- trigger LoadCacheTime ;;
            and_then (negb (time.IsZero t))
              (t' <- trigger LoadCacheTime ;;
               age <- time_Since t' ;;
               Ret (age <? lexiconCacheTTL))) ;;
  if hit then
    cache <- trigger LoadCache ;;
    Ret (Ok {| Entries := cache; Source := url; Cached := true |})
  else
    r <- fetchLexiconFromURL url ;;
    match r with
    | Err e => Ret (Err e)
    | Ok entries =>
        (* Update cache *)
        trigger (StoreCache entries) ;;
        now <- trigger Now ;;
        trigger (StoreCacheTime now) ;;
        Ret (Ok {| Entries := entries; Source := url; Cached := false |})
    end.

End Lexicon.

(** ** The lexicon: the world the events act on *)

(** The two package variables, and how many clock readings and GET requests
    the process has made so far. *)
Record World : Type := {
  lexiconCache : list LexiconEntry;
  lexiconCacheTime : time.Time;
  ticks : nat;
  requests : nat
}.

(** The surroundings of the process: what the clock shows at its n-th
    reading, and how the n-th GET request to a URL goes. *)
Record Env : Type := {
  clock : nat -> time.Time;
  remote : string -> nat -> http.Exchange
}.

(** The world at process start: both variables hold their zero value. *)
Definition start : World :=
  {| lexiconCache := []; lexiconCacheTime := time.zero; ticks := 0; requests := 0 |}.

Definition handle (env : Env) {X} (e : LexE X) (w : World) : X * World :=
  match e in LexE X return X * World with
  | LoadCache => (lexiconCache w, w)
  | StoreCache entries =>
      (tt, {| lexiconCache := entries;
              lexiconCacheTime := lexiconCacheTime w;
              ticks := ticks w;
              requests := requests w |})
  | LoadCacheTime => (lexiconCacheTime w, w)
  | StoreCacheTime t =>
      (tt, {| lexiconCache := lexiconCache w;
              lexiconCacheTime := t;
              ticks := ticks w;
              requests := requests w |})
  | Now =>
      (clock env (ticks w),
       {| lexiconCache := lexiconCache w;
          lexiconCacheTime := lexiconCacheTime w;
          ticks := S (ticks w);
          requests := requests w |})
  | Get url =>
      (remote env url (requests w),
       {| lexiconCache := lexiconCache w;
          lexiconCacheTime := lexiconCacheTime w;
          ticks := ticks w;
          requests := S (requests w) |})
  end.

(** One call run from start to end with no other call in between. *)
Fixpoint run (env : Env) {A} (p : Prog LexE A) (w : World) : A * World :=
  match p with
  | Ret a => (a, w)
  | Vis e k => let '(x, w') := handle env e w in run env (k x) w'
  end.

(** The cache as a reader sees it: the entries and the time of fetch. *)
Definition cached (w : World) : list LexiconEntry * time.Time :=
  (lexiconCache w, lexiconCacheTime w).

(** ** The lexicon: calls that overlap *)

(** The server runs each request in its own goroutine.  A call is a thread;
    a step of a thread is one event of its program, and threads take steps
    in any order. *)

(** What a call gives back, for either entry point. *)
Inductive Reply : Type :=
| ToolReply (r : Result OutputGetLexicon)
| ResourceReply (r : Result mcp.ReadResourceResult).

Definition callGetLexicon {codec : Codec} (input : InputGetLexicon)
  : Prog LexE Reply :=
  r <- GetLexicon input ;; Ret (ToolReply r).

Definition callHandleLexiconResource {codec : Codec}
  (req : mcp.ReadResourceRequest) : Prog LexE Reply :=
  r <- HandleLexiconResource req ;; Ret (ResourceReply r).

(** An event together with its answer. *)
Inductive Action : Type :=
| ALoadCache (entries : list LexiconEntry)
| AStoreCache (entries : list LexiconEntry)
| ALoadCacheTime (t : time.Time)
| AStoreCacheTime (t : time.Time)
| ANow (t : time.Time)
| AGet (url : string) (resp : http.Exchange).

Definition action_of {X} (e : LexE X) : X -> Action :=
  match e in LexE X return X -> Action with
  | LoadCache => fun entries => ALoadCache entries
  | StoreCache entries => fun _ => AStoreCache entries
  | LoadCacheTime => fun t => ALoadCacheTime t
  | StoreCacheTime t => fun _ => AStoreCacheTime t
  | Now => fun t => ANow t
  | Get url => fun resp => AGet url resp
  end.

Definition isLoad (a : Action) : bool :=
  match a with
  | ALoadCache _ | ALoadCacheTime _ => true
  | _ => false
  end.

(** One step of the trace: the thread that moved, what it did, and the two
    cache variables as they stood right after. *)
Record Step : Type := {
  thread : nat;
  action : Action;
  memory : list LexiconEntry * time.Time
}.

Definition step (env : Env) {A} (p : Prog LexE A) (w : World)
  : option (Action * Prog LexE A * World) :=
  match p with
  | Ret _ => None
  | Vis e k => let '(x, w') := handle env e w in Some (action_of e x, k x, w')
  end.

Record Conf : Type := {
  threads : list (Prog LexE Reply);
  world : World;
  trace : list Step
}.

Fixpoint replace {A} (i : nat) (x : A) (l : list A) : list A :=
  match l, i with
  | [], _ => []
  | _ :: t, O => x :: t
  | h :: t, S j => h :: replace j x t
  end.

(** Thread [i] takes a step; nothing happens when it has returned already. *)
Definition sched_step (env : Env) (c : Conf) (i : nat) : Conf :=
  match nth_error (threads c) i with
  | None => c
  | Some p =>
      match step env p (world c) with
      | None => c
      | Some (a, p', w') =>
          {| threads := replace i p' (threads c);
             world := w';
             trace := trace c ++ [ {| thread := i; action := a; memory := cached w' |} ] |}
      end
  end.

(** The threads run under a schedule: the list of who moves next. *)
Definition exec (env : Env) (sched : list nat) (c : Conf) : Conf :=
  fold_left (sched_step env) sched c.

Definition spawn (calls : list (Prog LexE Reply)) (w : World) : Conf :=
  {| threads := calls; world := w; trace := [] |}.

(** The trace of one call run alone as thread [i]. *)
Fixpoint trace_of (env : Env) (i : nat) {A} (p : Prog LexE A) (w : World)
  : list Step :=
  match p with
  | Ret _ => []
  | Vis e k =>
      let '(x, w') := handle env e w in
      {| thread := i; action := action_of e x; memory := cached w' |}
        :: trace_of env i (k x) w'
  end.

(** The updates a thread made: each assignment to [lexiconCache] paired with
    the assignment to [lexiconCacheTime] that follows it in the same thread. *)
Fixpoint updates_of (pending : option (list LexiconEntry)) (acts : list Action)
  : list (list LexiconEntry * time.Time) :=
  match acts with
  | [] => []
  | AStoreCache entries :: rest => updates_of (Some entries) rest
  | AStoreCacheTime t :: rest =>
      match pending with
      | Some entries => (entries, t) :: updates_of None rest
      | None => updates_of None rest
      end
  | _ :: rest => updates_of pending rest
  end.

Definition actions_by (i : nat) (tr : list Step) : list Action :=
  map action (filter (fun s => Nat.eqb (thread s) i) tr).

Definition thread_ids (tr : list Step) : list nat := map thread tr.

Definition updates (tr : list Step) : list (list LexiconEntry * time.Time) :=
  flat_map (fun i => updates_of None (actions_by i tr)) (nodup Nat.eq_dec (thread_ids tr)).

(** No torn read: whenever a thread reads one of the two cache variables, the
    pair in memory is the pair the run began with or the pair of one update. *)
Definition TornFree (init : list LexiconEntry * time.Time) (tr : list Step) : Prop :=
  forall s, In s tr -> isLoad (action s) = true ->
            In (memory s) (init :: updates tr).

(** The cache is updated atomically with respect to readers when no schedule
    of the calls leads to a torn read. *)
Definition AtomicUpdates (env : Env) (calls : list (Prog LexE Reply)) (w : World)
  : Prop :=
  forall sched, TornFree (cached w) (trace (exec env sched (spawn calls w))).

(** ** The artifact validator (resource.go, second part) *)

Module validate.

Definition gemaraModulePath : string := "github.com/gemaraproj/gemara@latest".

(** The input of the tool; the Go field [Definition] is [Definition_]. *)
Record InputValidateGemaraArtifact : Type := {
  ArtifactContent : string;
  Definition_ : string
}.

Record OutputValidateGemaraArtifact : Type := {
  Valid : bool;
  Errors : list string;
  Message : string
}.

(** The part of the CUE Go SDK the validator calls (packages modconfig,
    load, cuecontext, cue and encoding/yaml): its types, and what each
    call answers.  An SDK error is its message.  [Value_Validate] is
    [v.Validate(cue.Concrete(true))]. *)
Record Cue : Type := {
  Registry : Type;
  build_Instance : Type;
  cue_Context : Type;
  cue_Value : Type;
  cue_Path : Type;
  ast_File : Type;
  modconfig_NewRegistry : Result Registry;
  load_Instances : list string -> Registry -> list build_Instance;
  Instance_Err : build_Instance -> option error;
  cuecontext_New : cue_Context;
  Context_BuildInstance : cue_Context -> build_Instance -> cue_Value;
  Context_BuildFile : cue_Context -> ast_File -> cue_Value;
  Value_Err : cue_Value -> option error;
  cue_ParsePath : string -> cue_Path;
  Value_LookupPath : cue_Value -> cue_Path -> cue_Value;
  Value_Exists : cue_Value -> bool;
  Value_Unify : cue_Value -> cue_Value -> cue_Value;
  Value_Validate : cue_Value -> option error;
  yaml_Extract : string -> string -> Result ast_File
}.

(** The calls into the SDK, as events. *)
Inductive CueE (sdk : Cue) : Type -> Type :=
| NewRegistry : CueE sdk (Result (Registry sdk))
| LoadInstances (args : list string) (reg : Registry sdk)
  : CueE sdk (list (build_Instance sdk))
| NewContext : CueE sdk (cue_Context sdk)
| BuildInstance (ctx : cue_Context sdk) (inst : build_Instance sdk)
  : CueE sdk (cue_Value sdk)
| LookupPath (v : cue_Value sdk) (p : cue_Path sdk) : CueE sdk (cue_Value sdk)
| Extract (filename src : string) : CueE sdk (Result (ast_File sdk))
| BuildFile (ctx : cue_Context sdk) (f : ast_File sdk) : CueE sdk (cue_Value sdk)
| Unify (v w : cue_Value sdk) : CueE sdk (cue_Value sdk)
| Validate (v : cue_Value sdk) : CueE sdk (option error).

Arguments NewRegistry {sdk}.
Arguments LoadInstances {sdk} args reg.
Arguments NewContext {sdk}.
Arguments BuildInstance {sdk} ctx inst.
Arguments LookupPath {sdk} v p.
Arguments Extract {sdk} filename src.
Arguments BuildFile {sdk} ctx f.
Arguments Unify {sdk} v w.
Arguments Validate {sdk} v.

Section Validator.

Variable sdk : Cue.

(** [ValidateGemaraArtifact] validates a Gemara artifact using the CUE Go
    SDK with the registry module. *)
Definition ValidateGemaraArtifact (input : InputValidateGemaraArtifact)
  : Prog (CueE sdk) (Result OutputValidateGemaraArtifact) :=
  (* Validate inputs *)
  if strings.isEmpty (ArtifactContent input) then
    Ret (Err "artifact_content is required")
  else if strings.isEmpty (Definition_ input) then
    Ret (Err "definition is required")
  else
    (* Ensure definition starts with # *)
    let definition :=
      if negb (strings.HasPrefix (Definition_ input) "#")
      then "#" ++ Definition_ input
      else Definition_ input in
    (* Create registry for module access *)
    r <- trigger NewRegistry ;;
    match r with
    | Err e => Ret (Err ("failed to create CUE registry: " ++ e))
    | Ok reg =>
    (* Load the Gemara module from registry *)
    buildInstances <- trigger (LoadInstances [gemaraModulePath] reg) ;;
    match buildInstances with
    | [] => Ret (Err "failed to load module: no instances returned")
    | inst0 :: _ =>
    match Instance_Err sdk inst0 with
    | Some e => Ret (Err ("failed to load module: " ++ e))
    | None =>
    (* Build the schema instance *)
    cueCtx <- trigger NewContext ;;
    schema <- trigger (BuildInstance cueCtx inst0) ;;
    match Value_Err sdk schema with
    | Some e => Ret (Err ("failed to build schema: " ++ e))
    | None =>
    (* Look up the definition in the schema *)
    let entrypointPath := cue_ParsePath sdk definition in
    entrypoint <- trigger (LookupPath schema entrypointPath) ;;
    if negb (Value_Exists sdk entrypoint) then
      Ret (Err ("definition " ++ definition ++ " not found in schema"))
    else
    (* Extract YAML content to CUE *)
    y <- trigger (Extract "artifact.yaml" (ArtifactContent input)) ;;
    match y with
    | Err e =>
        (* Invalid YAML should result in validation failure, not a
           function error *)
        Ret (Ok {| Valid := false;
                   Errors := ["Failed to parse YAML: " ++ e];
                   Message := "Validation failed: invalid YAML: " ++ e |})
    | Ok yamlFile =>
    (* Build the data instance from YAML *)
    data <- trigger (BuildFile cueCtx yamlFile) ;;
    match Value_Err sdk data with
    | Some e =>
        (* Data build errors should result in validation failure *)
        Ret (Ok {| Valid := false;
                   Errors := ["Failed to build data instance: " ++ e];
                   Message := "Validation failed: " ++ e |})
    | None =>
    (* Unify schema definition with data *)
    unified <- trigger (Unify entrypoint data) ;;
    (* Validate with concrete values required *)
    v <- trigger (Validate unified) ;;
    match v with
    | Some errorOutput =>
        let errorLines := strings.Split (strings.TrimSpace errorOutput) LF in
        (* Filter out empty lines *)
        let errors :=
          filter (fun line => negb (strings.isEmpty (strings.TrimSpace line)))
                 errorLines in
        Ret (Ok {| Valid := false;
                   Errors := errors;
                   Message := "Validation failed: " ++ errorOutput |})
    | None =>
        Ret (Ok {| Valid := true;
                   Errors := [];
                   Message := "Artifact is valid" |})
    end end end end end end end.

(** The SDK calls a run made, in order; a call that returned an error
    carries its message. *)
Inductive Call : Type :=
| CNewRegistry
| CLoadInstances
| CNewContext
| CBuildInstance
| CLookupPath
| CExtract
| CBuildFile
| CUnify
| CValidate.

Record Activity : Type := { call : Call; failure : option error }.

Definition failure_of {A} (r : Result A) : option error :=
  match r with
  | Ok _ => None
  | Err e => Some e
  end.

Definition answer {X} (e : CueE sdk X) : X * Activity :=
  match e in CueE _ X return X * Activity with
  | NewRegistry =>
      let r := modconfig_NewRegistry sdk in
      (r, {| call := CNewRegistry; failure := failure_of r |})
  | LoadInstances args reg =>
      (load_Instances sdk args reg, {| call := CLoadInstances; failure := None |})
  | NewContext =>
      (cuecontext_New sdk, {| call := CNewContext; failure := None |})
  | BuildInstance ctx inst =>
      (Context_BuildInstance sdk ctx inst, {| call := CBuildInstance; failure := None |})
  | LookupPath v p =>
      (Value_LookupPath sdk v p, {| call := CLookupPath; failure := None |})
  | Extract filename src =>
      let r := yaml_Extract sdk filename src in
      (r, {| call := CExtract; failure := failure_of r |})
  | BuildFile ctx f =>
      (Context_BuildFile sdk ctx f, {| call := CBuildFile; failure := None |})
  | Unify v w =>
      (Value_Unify sdk v w, {| call := CUnify; failure := None |})
  | Validate v =>
      let r := Value_Validate sdk v in
      (r, {| call := CValidate; failure := r |})
  end.

(** A run against the SDK: the result and the calls made. *)
Fixpoint runCue {A} (p : Prog (CueE sdk) A) : A * list Activity :=
  match p with
  | Ret a => (a, [])
  | Vis e k =>
      let '(x, act) := answer e in
      let '(a, log) := runCue (k x) in
      (a, act :: log)
  end.

End Validator.

Arguments answer {sdk X} e.
Arguments runCue {sdk A} p.

End validate.

(** ** The advisory mode (mode.go) *)

Module mode.

(** A value of a Go [map[string]interface{}] literal, as the tool schemas
    use them: a string, a list of strings, or a map again.  A map is the
    list of its entries in the order of the literal. *)
#[local] Unset Elimination Schemes.
Inductive Any : Type :=
| AString (s : string)
| AStrings (l : list string)
| AMap (m : list (string * Any)).
#[local] Set Elimination Schemes.

(** [mcp.Resource], the fields the package sets. *)
Record Resource : Type := {
  Name : string;
  URI : string;
  Title : string;
  Description : string;
  MIMEType : string
}.

(** [mcp.Tool], the fields the package sets. *)
Record Tool : Type := {
  ToolName : string;
  ToolDescription : string;
  InputSchema : list (string * Any)
}.

(** [MetadataLexiconResource] describes the Lexicon resource with the
    canonical URL. *)
Definition MetadataLexiconResource : Resource :=
  {| Name := "lexicon";
     URI := LexiconResourceURI;
     Title := "Gemara Lexicon";
     Description :=
       "The Gemara Lexicon containing definitions of terms used in the Gemara framework.";
     MIMEType := "application/json" |}.

(** [MetadataLexiconResourceAlias] describes the Lexicon resource with the
    alias URI. *)
Definition MetadataLexiconResourceAlias : Resource :=
  {| Name := "lexicon";
     URI := LexiconResourceURIAlias;
     Title := "Gemara Lexicon";
     Description :=
       "The Gemara Lexicon containing definitions of terms used in the Gemara framework.";
     MIMEType := "application/json" |}.

(** [MetadataGetLexicon] describes the GetLexicon tool. *)
Definition MetadataGetLexicon : Tool :=
  {| ToolName := "get_lexicon";
     ToolDescription :=
       "Retrieve the Gemara Lexicon containing definitions of terms used in the Gemara model.";
     InputSchema :=
       [("type", AString "object");
        ("properties",
         AMap [("refresh",
                AMap [("type", AString "boolean");
                      ("description",
                       AString "Force refresh of lexicon cache (default: false)")])])] |}.

(** [MetadataValidateGemaraArtifact] describes the ValidateGemaraArtifact
    tool. *)
Definition MetadataValidateGemaraArtifact : Tool :=
  {| ToolName := "validate_gemara_artifact";
     ToolDescription :=
       "Validate a Gemara artifact YAML content against the Gemara CUE schema using the CUE registry module.";
     InputSchema :=
       [("type", AString "object");
        ("required", AStrings ["artifact_content"; "definition"]);
        ("properties",
         AMap [("artifact_content",
                AMap [("type", AString "string");
                      ("description",
                       AString "YAML content of the Gemara artifact to validate")]);
               ("definition",
                AMap [("type", AString "string");
                      ("description",
                       AString "CUE definition name to validate against (e.g., '#ControlCatalog', '#GuidanceDocument', '#Policy', '#EvaluationLog')")])])] |}.

(** The handlers the server is given: the Go functions themselves, for
    whatever codec and SDK they are linked with. *)
Definition ResourceHandler : Type :=
  forall codec : Codec,
    mcp.ReadResourceRequest -> Prog LexE (Result mcp.ReadResourceResult).

Inductive ToolHandler : Type :=
| LexiconTool
    (h : forall codec : Codec,
        InputGetLexicon -> Prog LexE (Result OutputGetLexicon))
| ValidatorTool
    (h : forall sdk : validate.Cue,
        validate.InputValidateGemaraArtifact
        -> Prog (validate.CueE sdk) (Result validate.OutputValidateGemaraArtifact)).

(** What a mode does to the server: [server.AddResource] and [mcp.AddTool]. *)
Inductive ServerE : Type -> Type :=
| AddResource (r : Resource) (h : ResourceHandler) : ServerE unit
| AddTool (t : Tool) (h : ToolHandler) : ServerE unit.

(** [AdvisoryMode] defines tools and resources for operating in a read-only
    query mode. *)
Definition AdvisoryMode_Name : string := "advisory".

Definition AdvisoryMode_Description : string :=
  "Advisory mode: Provides information about Gemara artifacts in the workspace (read-only)".

Definition AdvisoryMode_Register : Prog ServerE unit :=
  (* Lexicon tool - provides information about Gemara terms *)
  trigger (AddResource MetadataLexiconResource (@HandleLexiconResource)) ;;
  trigger (AddResource MetadataLexiconResourceAlias (@HandleLexiconResource)) ;;
  trigger (AddTool MetadataGetLexicon (LexiconTool (@GetLexicon))) ;;
  (* Validation tool - validates artifacts without modifying them *)
  trigger (AddTool MetadataValidateGemaraArtifact
             (ValidatorTool validate.ValidateGemaraArtifact)).

(** The registrations a program makes, in order. *)
Fixpoint resources_of {A} (p : Prog ServerE A) : list (Resource * ResourceHandler) :=
  match p with
  | Ret _ => []
  | Vis e k =>
      match e in ServerE X return (X -> Prog ServerE A) -> _ with
      | AddResource r h => fun k => (r, h) :: resources_of (k tt)
      | AddTool _ _ => fun k => resources_of (k tt)
      end k
  end.

Fixpoint tools_of {A} (p : Prog ServerE A) : list (Tool * ToolHandler) :=
  match p with
  | Ret _ => []
  | Vis e k =>
      match e in ServerE X return (X -> Prog ServerE A) -> _ with
      | AddResource _ _ => fun k => tools_of (k tt)
      | AddTool t h => fun k => (t, h) :: tools_of (k tt)
      end k
  end.

End mode.

(** ** The lexicon: sessions *)

(** A request to one of the two entry points [Register] puts on the server. *)
Inductive Request : Type :=
| ToolCall (input : InputGetLexicon)
| ResourceRead (req : mcp.ReadResourceRequest).

Definition serve {codec : Codec} (r : Request) : Prog LexE Reply :=
  match r with
  | ToolCall input => callGetLexicon input
  | ResourceRead req => callHandleLexiconResource req
  end.

(** Requests served one after the other, none overlapping another. *)
Fixpoint session {codec : Codec} (env : Env) (rs : list Request) (w : World)
  : list Reply * World :=
  match rs with
  | [] => ([], w)
  | r :: rest =>
      let '(reply, w1) := run env (serve r) w in
      let '(replies, w2) := session env rest w1 in
      (reply :: replies, w2)
  end.

(** Where the contents of the cache come from: it is as the session found
    it, or it holds what a request of the session to the lexicon URL
    brought, stamped with a clock reading of the session. *)
Definition Provenance {codec : Codec} (env : Env) (w0 w : World) : Prop :=
  cached w = cached w0
  \/ exists k n,
      (requests w0 <= k < requests w)%nat
      /\ (ticks w0 <= n < ticks w)%nat
      /\ fetched (remote env lexiconURL k) = Ok (lexiconCache w)
      /\ lexiconCacheTime w = clock env n.

(** The ways a fetch fails, by the branch of [fetchLexiconFromURL] that
    returns the error; a bad status carries its code. *)
Inductive FetchFailure : Type :=
| RequestConstruction
| Transport
| Status (code : Z)
| BodyRead
| Decode.

Definition failure {codec : Codec} (resp : http.Exchange) : option FetchFailure :=
  match resp with
  | http.RequestError _ => Some RequestConstruction
  | http.TransportError _ => Some Transport
  | http.Response StatusCode Body =>
      if negb (StatusCode =? http.StatusOK) then Some (Status StatusCode)
      else
        match Body with
        | Err _ => Some BodyRead
        | Ok body =>
            match yaml_Unmarshal body with
            | Err _ => Some Decode
            | Ok _ => None
            end
        end
  end.

(** What a call may cost: at most one request, at most three clock
    readings, and no change to the cache without a request. *)
Definition Frugal (w w' : World) : Prop :=
  (requests w <= requests w' <= S (requests w))%nat
  /\ (ticks w <= ticks w' <= ticks w + 3)%nat
  /\ (requests w' = requests w -> cached w' = cached w).

(** ** The lexicon: statements *)

(** What the next request to the lexicon URL will bring. *)
Definition upcoming {codec : Codec} (env : Env) (w : World)
  : Result (list LexiconEntry) :=
  fetched (remote env lexiconURL (requests w)).

(** What the resource handler serves when the cache holds [cache]. *)
Definition served {codec : Codec} (req : mcp.ReadResourceRequest)
  (cache : list LexiconEntry) : Result mcp.ReadResourceResult :=
  match json_Marshal cache with
  | Err e => Err ("failed to marshal lexicon: " ++ e)
  | Ok lexiconJSON =>
      Ok {| mcp.Contents :=
              [ {| mcp.URI := if strings.isEmpty (mcp.Params_URI req)
                              then LexiconResourceURI else mcp.Params_URI req;
                   mcp.MIMEType := "application/json";
                   mcp.Text := lexiconJSON |} ] |}
  end.

(** What one call run alone does to the cache: nothing, or both fields set
    from its own fetch, the time being a clock reading of the call. *)
Definition PairedUpdate {codec : Codec} (env : Env) (w w' : World) : Prop :=
  cached w' = cached w
  \/ exists entries n,
      upcoming env w = Ok entries
      /\ (ticks w <= n < ticks w')%nat
      /\ cached w' = (entries, clock env n).

(** ** Lines of a diagnostic *)

(** The string begins with a white-space rune. *)
Definition led (s : string) : bool :=
  match s with
  | EmptyString => false
  | String a r1 =>
      strings.asciiSpace a
      || match r1 with
         | EmptyString => false
         | String b r2 =>
             strings.space2 a b
             || match r2 with
                | EmptyString => false
                | String c _ => strings.space3 a b c
                end
         end
  end.

(** The lines of an error text that are not blank (resource.go:207-216, the
    loop over [errorLines]). *)
Definition nonblank_lines (errorOutput : string) : list string :=
  filter (fun line => negb (strings.isEmpty (strings.TrimSpace line)))
         (strings.Split (strings.TrimSpace errorOutput) LF).

(** ** The validator: statements *)

(** The definition name the validator looks up (resource.go:138-142,
    "Ensure definition starts with #"). *)
Definition normalized (definition : string) : string :=
  if negb (strings.HasPrefix definition "#") then "#" ++ definition else definition.

(** The entry point the validator finds in the schema for a definition name,
    when registry, module and schema all load. *)
Definition entrypoint_of (sdk : validate.Cue) (inst : validate.build_Instance sdk)
  (definition : string) : validate.cue_Value sdk :=
  validate.Value_LookupPath sdk
    (validate.Context_BuildInstance sdk (validate.cuecontext_New sdk) inst)
    (validate.cue_ParsePath sdk (normalized definition)).

(** The schema side of a validation is in order: the registry is created,
    the module loads with a first instance free of errors, the schema builds,
    and the definition is found in it. *)
Definition SchemaResolves (sdk : validate.Cue) (definition : string) : Prop :=
  exists reg inst rest,
    validate.modconfig_NewRegistry sdk = Ok reg
    /\ validate.load_Instances sdk [validate.gemaraModulePath] reg = inst :: rest
    /\ validate.Instance_Err sdk inst = None
    /\ validate.Value_Err sdk
         (validate.Context_BuildInstance sdk (validate.cuecontext_New sdk) inst) = None
    /\ validate.Value_Exists sdk (entrypoint_of sdk inst definition) = true.

(** A malformed document is a result and not an error, as C6 states it: for
    every definition name that is not empty. *)
Definition MalformedIsResult (sdk : validate.Cue) : Prop :=
  forall input,
    validate.Definition_ input <> "" ->
    isErr (validate.yaml_Extract sdk "artifact.yaml" (validate.ArtifactContent input)) = true ->
    exists out,
      fst (validate.runCue (validate.ValidateGemaraArtifact sdk input)) = Ok out
      /\ validate.Valid out = false
      /\ validate.Errors out <> []
      /\ strings.Contains (validate.Message out) "YAML" = true.

(** The marker makes no difference, as C8 states it: for every name that
    does not start with it. *)
Definition MarkerOptional (sdk : validate.Cue) : Prop :=
  forall content definition,
    strings.HasPrefix definition "#" = false ->
    validate.runCue
      (validate.ValidateGemaraArtifact sdk
         {| validate.ArtifactContent := content; validate.Definition_ := definition |})
    = validate.runCue
        (validate.ValidateGemaraArtifact sdk
           {| validate.ArtifactContent := content;
              validate.Definition_ := "#" ++ definition |}).



(** The same SDK with another answer from [load.Instances]. *)
Definition with_instances (sdk : validate.Cue)
  (instances : list string -> validate.Registry sdk -> list (validate.build_Instance sdk))
  : validate.Cue :=
  {| validate.Registry := validate.Registry sdk;
     validate.build_Instance := validate.build_Instance sdk;
     validate.cue_Context := validate.cue_Context sdk;
     validate.cue_Value := validate.cue_Value sdk;
     validate.cue_Path := validate.cue_Path sdk;
     validate.ast_File := validate.ast_File sdk;
     validate.modconfig_NewRegistry := validate.modconfig_NewRegistry sdk;
     validate.load_Instances := instances;
     validate.Instance_Err := validate.Instance_Err sdk;
     validate.cuecontext_New := validate.cuecontext_New sdk;
     validate.Context_BuildInstance := validate.Context_BuildInstance sdk;
     validate.Context_BuildFile := validate.Context_BuildFile sdk;
     validate.Value_Err := validate.Value_Err sdk;
     validate.cue_ParsePath := validate.cue_ParsePath sdk;
     validate.Value_LookupPath := validate.Value_LookupPath sdk;
     validate.Value_Exists := validate.Value_Exists sdk;
     validate.Value_Unify := validate.Value_Unify sdk;
     validate.Value_Validate := validate.Value_Validate sdk;
     validate.yaml_Extract := validate.yaml_Extract sdk |}.

(** The byte occurs in the string. *)
Fixpoint has_byte (c : ascii) (s : string) : bool :=
  match s with
  | EmptyString => false
  | String a r => Ascii.eqb a c || has_byte c r
  end.

(** The text of a CUE error that stands for several violations: the
    [Error()] of a cue/errors list is its first error followed by the number
    of the others ("%s (and %d more errors)"), and the error itself when
    there is one. *)
Definition errors_Error (violations : list string) : string :=
  match violations with
  | [] => "no errors"
  | [v] => v
  | v :: rest =>
      v ++ " (and " ++ strings.itoa (Z.of_nat (List.length rest)) ++ " more errors)"
  end.

(** The value the validator hands to [Validate], when it gets that far:
    the definition found in the schema, unified with the document built from
    the YAML. *)
Definition validated (sdk : validate.Cue)
  (input : validate.InputValidateGemaraArtifact) : option (validate.cue_Value sdk) :=
  if strings.isEmpty (validate.ArtifactContent input) then None
  else if strings.isEmpty (validate.Definition_ input) then None
  else
    match validate.modconfig_NewRegistry sdk with
    | Err _ => None
    | Ok reg =>
        match validate.load_Instances sdk [validate.gemaraModulePath] reg with
        | [] => None
        | inst0 :: _ =>
            let cueCtx := validate.cuecontext_New sdk in
            let schema := validate.Context_BuildInstance sdk cueCtx inst0 in
            let entrypoint := entrypoint_of sdk inst0 (validate.Definition_ input) in
            match validate.Instance_Err sdk inst0, validate.Value_Err sdk schema with
            | None, None =>
                if validate.Value_Exists sdk entrypoint then
                  match validate.yaml_Extract sdk "artifact.yaml"
                          (validate.ArtifactContent input) with
                  | Err _ => None
                  | Ok yamlFile =>
                      let data := validate.Context_BuildFile sdk cueCtx yamlFile in
                      match validate.Value_Err sdk data with
                      | Some _ => None
                      | None => Some (validate.Value_Unify sdk entrypoint data)
                      end
                  end
                else None
            | _, _ => None
            end
        end
    end.

(** One diagnostic line for each underlying schema violation, as C10 states
    it: when the error of the validation stands for [violations], each of
    them a line of its own, the outcome has as many errors as there are
    violations. *)
Definition LinePerViolation (sdk : validate.Cue)
  (violations : validate.cue_Value sdk -> list string) : Prop :=
  forall input out log v,
    validate.runCue (validate.ValidateGemaraArtifact sdk input) = (Ok out, log) ->
    validated sdk input = Some v ->
    validate.Value_Validate sdk v = Some (errors_Error (violations v)) ->
    (forall line, In line (violations v) ->
                  has_byte LF line = false /\ strings.TrimSpace line <> "") ->
    violations v <> [] ->
    List.length (validate.Errors out) = List.length (violations v).

(** ** The freshness predicate *)

(** The condition of lexicon.go:105 and :152,
    [!lexiconCacheTime.IsZero() && time.Since(lexiconCacheTime) < ttl],
    as a function of the stored time, the clock reading and the bound. *)
Definition cacheFresh (ttl : time.Duration) (fetchedAt now : time.Time) : bool :=
  negb (time.IsZero fetchedAt) && (time.Sub now fetchedAt <? ttl).

(** The condition of resource.go:41 under which the handler fetches. *)
Definition cacheStale (cache : list LexiconEntry) (fetchedAt now : time.Time) : bool :=
  Nat.eqb (List.length cache) 0
  || time.IsZero fetchedAt
  || (lexiconCacheTTL <=? time.Sub now fetchedAt).

(** The predicate in the words of the specification:
    [fresh(now, ttl) = fetchedAt present AND (now - fetchedAt) < ttl]. *)
Definition spec_fresh (now : time.Time) (ttl : time.Duration) (fetchedAt : time.Time) : Prop :=
  fetchedAt <> time.zero /\ now - fetchedAt < ttl.

(** ** Fixtures *)

Module Fixtures.

Definition joinWith (sep : string) (l : list string) : string :=
  String.concat sep l.

(** A line-oriented stand-in for the YAML and JSON codecs: one entry per
    line, fields separated by a bar, references by a comma. *)
Definition encodeEntry (e : LexiconEntry) : string :=
  Term e ++ "|" ++ Definition_ e ++ "|" ++ joinWith "," (References e).

Definition decodeEntry (line : string) : Result LexiconEntry :=
  match strings.Split line "|"%char with
  | [t; d; r] =>
      Ok {| Term := t;
            Definition_ := d;
            References := if strings.isEmpty r then [] else strings.Split r ","%char |}
  | _ => Err ("malformed entry: " ++ line)
  end.

Fixpoint decodeAll (lines : list string) : Result (list LexiconEntry) :=
  match lines with
  | [] => Ok []
  | l :: rest =>
      match decodeEntry l, decodeAll rest with
      | Ok e, Ok es => Ok (e :: es)
      | Err m, _ => Err m
      | _, Err m => Err m
      end
  end.

Definition encode (es : list LexiconEntry) : string :=
  joinWith (String LF "") (map encodeEntry es).

Definition decode (text : string) : Result (list LexiconEntry) :=
  if strings.isEmpty text then Ok [] else decodeAll (strings.Split text LF).

Definition lineCodec : Codec :=
  {| yaml_Unmarshal := decode;
     json_Marshal := fun es => Ok (encode es);
     json_Unmarshal := decode |}.

Definition assessment : LexiconEntry :=
  {| Term := "Assessment";
     Definition_ := "Atomic process used to determine a resource's compliance";
     References := ["Layer 5"] |}.

Definition control : LexiconEntry :=
  {| Term := "Control";
     Definition_ := "Safeguard or countermeasure";
     References := ["Layer 2"] |}.

Definition test : LexiconEntry :=
  {| Term := "Test"; Definition_ := "A test term"; References := [] |}.

(** An instant late in 2025, in nanoseconds since year 1. *)
Definition t0 : time.Time := 63900000000 * time.Second.

(** A clock that advances one millisecond per reading. *)
Definition tick (n : nat) : time.Time := t0 + Z.of_nat n * time.Millisecond.

(** A remote that answers every request with the two entries. *)
Definition serving : Env :=
  {| clock := tick;
     remote := fun _ _ => http.Response 200 (Ok (encode [assessment; control])) |}.

(** A remote whose document changes after the first request: one entry
    first, the two entries from then on. *)
Definition changing : Env :=
  {| clock := tick;
     remote := fun _ n =>
       match n with
       | O => http.Response 200 (Ok (encode [test]))
       | S _ => http.Response 200 (Ok (encode [assessment; control]))
       end |}.

(** A remote that answers every request with a server error. *)
Definition failing : Env :=
  {| clock := tick;
     remote := fun _ _ => http.Response 500 (Ok "") |}.

(** A cache filled an hour before [t0] with one entry. *)
Definition warm : World :=
  {| lexiconCache := [test];
     lexiconCacheTime := t0 - time.Hour;
     ticks := 0;
     requests := 0 |}.

(** A cache that reaches the age of 24 hours between the first and the
    second reading of the clock. *)
Definition expiring : World :=
  {| lexiconCache := [test];
     lexiconCacheTime := tick 1 - lexiconCacheTTL;
     ticks := 0;
     requests := 0 |}.

(** A cache filled two days before [t0]. *)
Definition expired : World :=
  {| lexiconCache := [test];
     lexiconCacheTime := t0 - 48 * time.Hour;
     ticks := 0;
     requests := 0 |}.

(** A stand-in for the CUE SDK: a schema with four definitions, a YAML
    reader that rejects an unclosed bracket, and a validator that rejects a
    Kubernetes manifest. *)
Inductive ToyValue : Type :=
| Schema
| Def (name : string)
| Missing
| Data (src : string)
| Unified (def src : string).

Definition toyExtract (filename src : string) : Result string :=
  if strings.Contains src "[unclosed" then
    Err (filename ++ ":1: did not find expected ',' or ']'")
  else Ok src.

Definition known : list string :=
  ["#ControlCatalog"; "#GuidanceDocument"; "#Policy"; "#EvaluationLog"].

Definition toyCue : validate.Cue :=
  {| validate.Registry := unit;
     validate.build_Instance := unit;
     validate.cue_Context := unit;
     validate.cue_Value := ToyValue;
     validate.cue_Path := string;
     validate.ast_File := string;
     validate.modconfig_NewRegistry := Ok tt;
     validate.load_Instances := fun _ _ => [tt];
     validate.Instance_Err := fun _ => None;
     validate.cuecontext_New := tt;
     validate.Context_BuildInstance := fun _ _ => Schema;
     validate.Context_BuildFile := fun _ f => Data f;
     validate.Value_Err := fun _ => None;
     validate.cue_ParsePath := fun s => s;
     validate.Value_LookupPath := fun v p =>
       match v with
       | Schema => if existsb (String.eqb p) known then Def p else Missing
       | _ => Missing
       end;
     validate.Value_Exists := fun v =>
       match v with
       | Missing => false
       | _ => true
       end;
     validate.Value_Unify := fun v w =>
       match v, w with
       | Def d, Data s => Unified d s
       | _, _ => Missing
       end;
     validate.Value_Validate := fun v =>
       match v with
       | Unified d s =>
           if strings.Contains s "kind: ConfigMap" then
             Some ("apiVersion: field not allowed" ++ String LF ""
                     ++ String LF "kind: field not allowed" ++ String LF "")
           else None
       | _ => Some "incomplete value"
       end;
     validate.yaml_Extract := toyExtract |}.

(** A registry that cannot be reached. *)
Definition offlineCue : validate.Cue :=
  {| validate.Registry := unit;
     validate.build_Instance := unit;
     validate.cue_Context := unit;
     validate.cue_Value := ToyValue;
     validate.cue_Path := string;
     validate.ast_File := string;
     validate.modconfig_NewRegistry := Err "registry unreachable";
     validate.load_Instances := fun _ _ => [];
     validate.Instance_Err := fun _ => None;
     validate.cuecontext_New := tt;
     validate.Context_BuildInstance := fun _ _ => Schema;
     validate.Context_BuildFile := fun _ f => Data f;
     validate.Value_Err := fun _ => None;
     validate.cue_ParsePath := fun s => s;
     validate.Value_LookupPath := fun _ _ => Missing;
     validate.Value_Exists := fun _ => false;
     validate.Value_Unify := fun _ _ => Missing;
     validate.Value_Validate := fun _ => None;
     validate.yaml_Extract := toyExtract |}.

(** Three violations, as the schema finds them in a Kubernetes manifest. *)
Definition three_violations : list string :=
  ["#ControlCatalog.apiVersion: field not allowed";
   "#ControlCatalog.kind: field not allowed";
   "#ControlCatalog.title: incomplete value string"].

(** The stand-in SDK again, with a validator that reports the three
    violations as cue/errors renders them. *)
Definition listCue : validate.Cue :=
  {| validate.Registry := unit;
     validate.build_Instance := unit;
     validate.cue_Context := unit;
     validate.cue_Value := ToyValue;
     validate.cue_Path := string;
     validate.ast_File := string;
     validate.modconfig_NewRegistry := validate.modconfig_NewRegistry toyCue;
     validate.load_Instances := validate.load_Instances toyCue;
     validate.Instance_Err := validate.Instance_Err toyCue;
     validate.cuecontext_New := tt;
     validate.Context_BuildInstance := validate.Context_BuildInstance toyCue;
     validate.Context_BuildFile := validate.Context_BuildFile toyCue;
     validate.Value_Err := validate.Value_Err toyCue;
     validate.cue_ParsePath := validate.cue_ParsePath toyCue;
     validate.Value_LookupPath := validate.Value_LookupPath toyCue;
     validate.Value_Exists := validate.Value_Exists toyCue;
     validate.Value_Unify := validate.Value_Unify toyCue;
     validate.Value_Validate := fun v =>
       match v with
       | Unified d s =>
           if strings.Contains s "kind: ConfigMap" then
             Some (errors_Error three_violations)
           else None
       | _ => Some "incomplete value"
       end;
     validate.yaml_Extract := toyExtract |}.

Definition manifest : string :=
  "apiVersion: v1" ++ String LF "kind: ConfigMap" ++ String LF "metadata:"
    ++ String LF "  name: test".

End Fixtures.

(** * Properties *)

(** ** Running programs *)

Lemma run_bind (env : Env) {A B} (p : Prog LexE A) (f : A -> Prog LexE B) (w : World) :
  run env (bind p f) w = run env (f (fst (run env p w))) (snd (run env p w)).
Proof.
  revert w. induction p as [a | X e k IH]; intros w; simpl.
  - reflexivity.
  - destruct (handle env e w) as [x w']. apply IH.
Qed.

Lemma trace_of_bind (env : Env) (i : nat) {A B} (p : Prog LexE A)
  (f : A -> Prog LexE B) (w : World) :
  trace_of env i (bind p f) w =
  (trace_of env i p w
     ++ trace_of env i (f (fst (run env p w))) (snd (run env p w)))%list.
Proof.
  revert w. induction p as [a | X e k IH]; intros w; simpl.
  - reflexivity.
  - destruct (handle env e w) as [x w']. simpl. f_equal. apply IH.
Qed.

(** The world only moves forward: a call never undoes a clock reading or a
    request. *)
Lemma run_monotone (env : Env) {A} (p : Prog LexE A) (w : World) :
  (ticks w <= ticks (snd (run env p w)))%nat
  /\ (requests w <= requests (snd (run env p w)))%nat.
Proof.
  revert w. induction p as [a | X e k IH]; intros w; simpl.
  - split; apply Nat.le_refl.
  - destruct (handle env e w) as [x w'] eqn:He.
    specialize (IH x w').
    assert ((ticks w <= ticks w')%nat /\ (requests w <= requests w')%nat) as [Ht Hr].
    { destruct e; simpl in He; inversion He; subst; simpl; split;
        auto using Nat.le_refl, Nat.le_succ_diag_r. }
    destruct IH as [IHt IHr]. split; eapply Nat.le_trans; eassumption.
Qed.

(** ** Time and freshness *)

Lemma Sub_exact (t u : time.Time) :
  time.minDuration <= t - u <= time.maxDuration -> time.Sub t u = t - u.
Proof.
  intros [Hlo Hhi]. unfold time.Sub.
  destruct (Z.ltb_spec time.maxDuration (t - u)); [lia|].
  destruct (Z.ltb_spec (t - u) time.minDuration); [lia|]. reflexivity.
Qed.

Lemma Sub_lt_iff (ttl : time.Duration) (t u : time.Time) :
  time.minDuration < ttl <= time.maxDuration ->
  (time.Sub t u <? ttl) = (t - u <? ttl).
Proof.
  intros [Hlo Hhi]. unfold time.Sub.
  destruct (Z.ltb_spec time.maxDuration (t - u)).
  - destruct (Z.ltb_spec time.maxDuration ttl); [lia|].
    destruct (Z.ltb_spec (t - u) ttl); [lia|]. reflexivity.
  - destruct (Z.ltb_spec (t - u) time.minDuration).
    + destruct (Z.ltb_spec time.minDuration ttl); [|lia].
      destruct (Z.ltb_spec (t - u) ttl); [|lia]. reflexivity.
    + reflexivity.
Qed.

Lemma cacheFresh_spec (ttl : time.Duration) (fetchedAt now : time.Time) :
  time.minDuration < ttl <= time.maxDuration ->
  cacheFresh ttl fetchedAt now = true <-> spec_fresh now ttl fetchedAt.
Proof.
  intros Httl. unfold cacheFresh, spec_fresh, time.IsZero, time.zero.
  rewrite (Sub_lt_iff ttl now fetchedAt Httl), andb_true_iff, negb_true_iff, Z.eqb_neq, Z.ltb_lt.
  reflexivity.
Qed.

Lemma lexiconCacheTTL_range :
  time.minDuration < lexiconCacheTTL <= time.maxDuration.
Proof. vm_compute. split; [reflexivity | discriminate]. Qed.

Lemma cacheStale_fresh (cache : list LexiconEntry) (fetchedAt now : time.Time) :
  cacheStale cache fetchedAt now =
  Nat.eqb (List.length cache) 0 || negb (cacheFresh lexiconCacheTTL fetchedAt now).
Proof.
  unfold cacheStale, cacheFresh. rewrite negb_andb, negb_involutive, Z.leb_antisym.
  rewrite orb_assoc. reflexivity.
Qed.

(** ** Symbolic execution *)

Arguments fetched : simpl never.
Arguments time.Sub : simpl never.
Arguments time.IsZero : simpl never.
Arguments lexiconCacheTTL : simpl never.

(** Splits on whatever the next branch of a run depends on. *)
Ltac branch :=
  match goal with
  | H : ?x = _ |- context [match ?x with _ => _ end] => rewrite H
  | H : ?x = _ |- context [if ?x then _ else _] => rewrite H
  | |- context [if Refresh ?i then _ else _] => destruct (Refresh i) eqn:?
  | |- context [if Nat.eqb ?a ?b then _ else _] => destruct (Nat.eqb a b) eqn:?
  | |- context [if time.IsZero ?t then _ else _] => destruct (time.IsZero t) eqn:?
  | |- context [if negb ?b then _ else _] => destruct b eqn:?
  | |- context [if Z.leb ?a ?b then _ else _] => destruct (Z.leb a b) eqn:?
  | |- context [if Z.ltb ?a ?b then _ else _] => destruct (Z.ltb a b) eqn:?
  | |- context [match fetched ?r with _ => _ end] => destruct (fetched r) eqn:?
  | |- context [match json_Marshal ?c with _ => _ end] => destruct (json_Marshal c) eqn:?
  | |- context [match json_Unmarshal ?c with _ => _ end] => destruct (json_Unmarshal c) eqn:?
  end.

Ltac symex :=
  unfold GetLexicon, getLexiconWithURL, HandleLexiconResource,
    fetchLexiconFromURL, time_Since, trigger, and_then, or_else;
  simpl;
  repeat (branch; simpl).

Section LexiconFacts.

Context {codec : Codec}.
Variable env : Env.

Lemma GetLexicon_refresh_run (w : World) :
  run env (GetLexicon {| Refresh := true |}) w =
  match upcoming env w with
  | Err e =>
      (Err e,
       {| lexiconCache := lexiconCache w; lexiconCacheTime := lexiconCacheTime w;
          ticks := ticks w; requests := S (requests w) |})
  | Ok entries =>
      (Ok {| Entries := entries; Source := lexiconURL; Cached := false |},
       {| lexiconCache := entries; lexiconCacheTime := clock env (ticks w);
          ticks := S (ticks w); requests := S (requests w) |})
  end.
Proof. unfold upcoming. symex; reflexivity. Qed.

Lemma HandleLexiconResource_run (req : mcp.ReadResourceRequest) (w : World) :
  run env (HandleLexiconResource req) w =
  if Nat.eqb (List.length (lexiconCache w)) 0 || time.IsZero (lexiconCacheTime w) then
    match upcoming env w with
    | Err e =>
        (Err ("failed to fetch lexicon: " ++ e),
         {| lexiconCache := lexiconCache w; lexiconCacheTime := lexiconCacheTime w;
            ticks := ticks w; requests := S (requests w) |})
    | Ok entries =>
        (served req entries,
         {| lexiconCache := entries; lexiconCacheTime := clock env (ticks w);
            ticks := S (ticks w); requests := S (requests w) |})
    end
  else if lexiconCacheTTL <=? time.Sub (clock env (ticks w)) (lexiconCacheTime w) then
    match upcoming env w with
    | Err e =>
        (Err ("failed to fetch lexicon: " ++ e),
         {| lexiconCache := lexiconCache w; lexiconCacheTime := lexiconCacheTime w;
            ticks := S (ticks w); requests := S (requests w) |})
    | Ok entries =>
        (served req entries,
         {| lexiconCache := entries; lexiconCacheTime := clock env (S (ticks w));
            ticks := S (S (ticks w)); requests := S (requests w) |})
    end
  else
    (served req (lexiconCache w),
     {| lexiconCache := lexiconCache w; lexiconCacheTime := lexiconCacheTime w;
        ticks := S (ticks w); requests := requests w |}).
Proof.
  unfold upcoming, served. symex; try reflexivity.
Qed.

Lemma GetLexicon_query_run (w : World) :
  run env (GetLexicon {| Refresh := false |}) w =
  let r := run env (HandleLexiconResource {| mcp.Params_URI := lexiconResourceURI |}) w in
  let w1 := snd r in
  match fst r with
  | Err e => (Err ("failed to read lexicon resource: " ++ e), w1)
  | Ok result =>
      match mcp.Contents result with
      | [] => (Err "resource returned no contents", w1)
      | c0 :: _ =>
          match json_Unmarshal (mcp.Text c0) with
          | Err e => (Err ("failed to parse lexicon JSON: " ++ e), w1)
          | Ok entries =>
              (Ok {| Entries := entries;
                     Source := lexiconURL;
                     Cached := cacheFresh lexiconCacheTTL (lexiconCacheTime w1)
                                 (clock env (ticks w1)) |},
               if time.IsZero (lexiconCacheTime w1) then w1
               else {| lexiconCache := lexiconCache w1;
                       lexiconCacheTime := lexiconCacheTime w1;
                       ticks := S (ticks w1);
                       requests := requests w1 |})
          end
      end
  end.
Proof.
  unfold GetLexicon. cbv beta iota delta [Refresh].
  rewrite run_bind.
  destruct (run env (HandleLexiconResource _) w) as [r w1]. cbv zeta. simpl fst; simpl snd.
  destruct r as [result | e]; [| reflexivity].
  destruct (mcp.Contents result) as [| c0 rest]; [reflexivity |].
  destruct (json_Unmarshal (mcp.Text c0)) as [entries | e]; [| reflexivity].
  unfold cacheFresh, and_then, time_Since, trigger. simpl.
  destruct (time.IsZero (lexiconCacheTime w1)); simpl.
  - destruct w1; reflexivity.
  - reflexivity.
Qed.

Lemma getLexiconWithURL_run (input : InputGetLexicon) (url : string) (w : World) :
  run env (getLexiconWithURL input url) w =
  let hit := negb (Refresh input)
             && cacheFresh lexiconCacheTTL (lexiconCacheTime w) (clock env (ticks w)) in
  let n := if negb (Refresh input) && negb (time.IsZero (lexiconCacheTime w))
           then S (ticks w) else ticks w in
  if hit then
    (Ok {| Entries := lexiconCache w; Source := url; Cached := true |},
     {| lexiconCache := lexiconCache w; lexiconCacheTime := lexiconCacheTime w;
        ticks := n; requests := requests w |})
  else
    match fetched (remote env url (requests w)) with
    | Err e =>
        (Err e,
         {| lexiconCache := lexiconCache w; lexiconCacheTime := lexiconCacheTime w;
            ticks := n; requests := S (requests w) |})
    | Ok entries =>
        (Ok {| Entries := entries; Source := url; Cached := false |},
         {| lexiconCache := entries; lexiconCacheTime := clock env n;
            ticks := S n; requests := S (requests w) |})
    end.
Proof.
  unfold cacheFresh. destruct input as [refresh]. cbv zeta.
  destruct refresh; symex; try reflexivity.
Qed.

End LexiconFacts.

(** ** The remote fetcher *)

(** The five ways a fetch fails: request construction, transport, a status
    other than 200, reading the body, decoding the body. *)
Lemma fetch_failures {codec : Codec} (resp : http.Exchange) :
  isErr (fetched resp) = true <->
  match resp with
  | http.RequestError _ => True
  | http.TransportError _ => True
  | http.Response StatusCode Body =>
      StatusCode <> http.StatusOK
      \/ (exists e, Body = Err e)
      \/ (exists body e, Body = Ok body /\ yaml_Unmarshal body = Err e)
  end.
Proof.
  unfold fetched. destruct resp as [e | e | code body]; simpl; try tauto.
  destruct (Z.eqb_spec code http.StatusOK) as [-> | Hne]; simpl.
  - destruct body as [b | e]; simpl.
    + destruct (yaml_Unmarshal b) as [es | e] eqn:Hy; simpl; split.
      * discriminate.
      * intros [H | [[e H] | [b' [e [Hb He]]]]]; congruence.
      * intros _. right. right. eauto.
      * reflexivity.
    + split; [intros _; right; left; eauto | reflexivity].
  - split; [intros _; left; assumption | reflexivity].
Qed.

(** ** The access paths *)

(** C4. A direct query with [refresh=true] always performs a fetch, whatever
    the cache holds.  When the fetch succeeds the cache is overwritten with
    the fetched entries and the time read right after, and the result carries
    exactly those entries with [cached=false]; when it fails the error is
    returned as it is and the cache is untouched. *)
Theorem refresh_bypasses_cache {codec : Codec} (env : Env) (w : World) :
  let r := run env (GetLexicon {| Refresh := true |}) w in
  requests (snd r) = S (requests w)
  /\ match upcoming env w with
     | Ok entries =>
         fst r = Ok {| Entries := entries; Source := lexiconURL; Cached := false |}
         /\ lexiconCache (snd r) = entries
         /\ lexiconCacheTime (snd r) = clock env (ticks w)
         /\ ticks (snd r) = S (ticks w)
     | Err e =>
         fst r = Err e /\ cached (snd r) = cached w
     end.
Proof.
  cbv zeta. rewrite GetLexicon_refresh_run.
  destruct (upcoming env w) as [entries | e]; simpl; auto.
Qed.

(** C3. When the remote fetch of a call fails, [GetLexicon] and
    [HandleLexiconResource] return a function error, and the entries and the
    timestamp of the cache are after the call what they were before it. *)
Theorem failed_fetch_preserves_cache {codec : Codec} (env : Env) (w : World) :
  isErr (upcoming env w) = true ->
  (forall input,
      let r := run env (GetLexicon input) w in
      requests (snd r) <> requests w ->
      isErr (fst r) = true /\ cached (snd r) = cached w)
  /\ (forall req,
      let r := run env (HandleLexiconResource req) w in
      requests (snd r) <> requests w ->
      isErr (fst r) = true /\ cached (snd r) = cached w).
Proof.
  intros Hfail.
  assert (Hres : forall req,
             let r := run env (HandleLexiconResource req) w in
             requests (snd r) <> requests w ->
             isErr (fst r) = true /\ cached (snd r) = cached w).
  { intros req. cbv zeta. rewrite HandleLexiconResource_run.
    destruct (upcoming env w) as [entries | e]; [discriminate |].
    destruct (_ || _); [| destruct (_ <=? _)]; simpl; intros Hreq; auto. }
  split; [| exact Hres].
  intros [[|]]; cbv zeta.
  - rewrite GetLexicon_refresh_run.
    destruct (upcoming env w) as [entries | e]; [discriminate |]. simpl. auto.
  - rewrite GetLexicon_query_run. cbv zeta.
    specialize (Hres {| mcp.Params_URI := lexiconResourceURI |}). cbv zeta in Hres.
    destruct (run env (HandleLexiconResource _) w) as [r w1]. simpl in *.
    destruct r as [result | e]; simpl.
    + intros Hreq. destruct Hres as [Habs _]; [| discriminate].
      destruct (mcp.Contents result) as [| c0 rest]; [exact Hreq |].
      destruct (json_Unmarshal (mcp.Text c0)); [| exact Hreq].
      simpl in Hreq. destruct (time.IsZero (lexiconCacheTime w1)); exact Hreq.
    + intros Hreq. destruct (Hres Hreq) as [_ Hc]. auto.
Qed.

(** A failing remote against a cache that has expired: the handler fetches,
    fails, and leaves the expired entry where it was. *)
Lemma failed_fetch_preserves_cache_witness :
  let r := run Fixtures.failing
               (HandleLexiconResource (codec:=Fixtures.lineCodec)
                  {| mcp.Params_URI := "" |}) Fixtures.expired in
  isErr (fst r) = true /\ cached (snd r) = cached Fixtures.expired.
Proof.
  cbv zeta.
  apply (proj2 (@failed_fetch_preserves_cache Fixtures.lineCodec Fixtures.failing
                  Fixtures.expired eq_refl)).
  vm_compute. discriminate.
Defined.

(** ** The resource read *)

Lemma served_Ok {codec : Codec} (req : mcp.ReadResourceRequest)
  (cache : list LexiconEntry) (result : mcp.ReadResourceResult) :
  served req cache = Ok result ->
  exists text,
    json_Marshal cache = Ok text
    /\ mcp.Contents result =
         [ {| mcp.URI := if strings.isEmpty (mcp.Params_URI req)
                         then LexiconResourceURI else mcp.Params_URI req;
              mcp.MIMEType := "application/json";
              mcp.Text := text |} ].
Proof.
  unfold served. destruct (json_Marshal cache) as [text | e]; [| discriminate].
  intros H. inversion H; subst. exists text. split; reflexivity.
Qed.

(** The handler either reports a failed fetch, or serves the cache as the
    call leaves it; what it does to the world does not depend on the request. *)
Lemma HandleLexiconResource_serves {codec : Codec} (env : Env)
  (req : mcp.ReadResourceRequest) (w : World) :
  let r := run env (HandleLexiconResource req) w in
  ((exists e, fst r = Err ("failed to fetch lexicon: " ++ e))
   \/ fst r = served req (lexiconCache (snd r)))
  /\ (forall req', snd (run env (HandleLexiconResource req') w) = snd r)
  /\ (forall req', isOk (fst (run env (HandleLexiconResource req') w)) = isOk (fst r)).
Proof.
  cbv zeta. rewrite HandleLexiconResource_run.
  assert (Hok : forall req' cache, isOk (served req' cache) = isOk (served req cache)).
  { intros. unfold served. destruct (json_Marshal cache); reflexivity. }
  repeat split.
  - destruct (_ || _); [| destruct (_ <=? _)];
      try destruct (upcoming env w); simpl; eauto.
  - intros req'. rewrite HandleLexiconResource_run.
    destruct (_ || _); [| destruct (_ <=? _)];
      try destruct (upcoming env w); reflexivity.
  - intros req'. rewrite HandleLexiconResource_run.
    destruct (_ || _); [| destruct (_ <=? _)];
      try destruct (upcoming env w); simpl; auto.
Qed.

Lemma fetched_message {codec : Codec} (resp : http.Exchange) (e : error) :
  fetched resp = Err e -> e <> "resource returned no contents".
Proof.
  unfold fetched. destruct resp as [m | m | code body].
  - intros H; inversion H; discriminate.
  - intros H; inversion H; discriminate.
  - destruct (negb (code =? http.StatusOK)).
    + intros H; inversion H; discriminate.
    + destruct body as [b | m].
      * destruct (yaml_Unmarshal b); intros H; inversion H; discriminate.
      * intros H; inversion H; discriminate.
Qed.

(** C9. A successful resource read returns exactly one content element; its
    MIME type is application/json, its text is the serialization of the cache
    as the call leaves it, whatever identifier was requested, and its URI is
    the requested identifier, or the canonical one when that is empty.  So
    the branch of [GetLexicon] for a read without contents is never taken. *)
Theorem resource_read_result {codec : Codec} (env : Env) (w : World)
  (req : mcp.ReadResourceRequest) (result : mcp.ReadResourceResult) :
  fst (run env (HandleLexiconResource req) w) = Ok result ->
  let w' := snd (run env (HandleLexiconResource req) w) in
  (exists text,
      json_Marshal (lexiconCache w') = Ok text
      /\ mcp.Contents result =
           [ {| mcp.URI := if strings.isEmpty (mcp.Params_URI req)
                           then LexiconResourceURI else mcp.Params_URI req;
                mcp.MIMEType := "application/json";
                mcp.Text := text |} ]
      /\ forall req',
          exists result',
            fst (run env (HandleLexiconResource req') w) = Ok result'
            /\ map mcp.Text (mcp.Contents result') = [text]
            /\ snd (run env (HandleLexiconResource req') w) = w')
  /\ forall input w0,
      fst (run env (GetLexicon input) w0) <> Err "resource returned no contents".
Proof.
  intros Hres w'. split.
  - destruct (HandleLexiconResource_serves env req w) as [[[e He] | Hs] [Hw _]];
      [congruence |].
    fold w' in Hs. rewrite Hres in Hs. symmetry in Hs.
    destruct (served_Ok _ _ _ Hs) as [text [Hm Hc]].
    exists text. repeat split; try assumption.
    intros req'.
    destruct (HandleLexiconResource_serves env req' w) as [[[e He] | Hs'] [_ Hk]].
    + specialize (Hk req). rewrite Hres, He in Hk. discriminate.
    + rewrite (Hw req') in Hs'. fold w' in Hs'.
      unfold served in Hs'. rewrite Hm in Hs'.
      eexists. split; [exact Hs' |]. split; [reflexivity | apply Hw].
  - intros [[|]] w0.
    + rewrite GetLexicon_refresh_run. unfold upcoming.
      destruct (fetched _) as [entries | e] eqn:Hf; simpl; [discriminate |].
      intros H; inversion H. eapply fetched_message; eassumption.
    + rewrite GetLexicon_query_run. cbv zeta.
      destruct (HandleLexiconResource_serves env
                  {| mcp.Params_URI := lexiconResourceURI |} w0) as [Hs _].
      destruct (fst (run env (HandleLexiconResource _) w0)) as [res | e] eqn:Hr;
        simpl; [| discriminate].
      destruct Hs as [[e He] | Hs]; [discriminate |].
      symmetry in Hs. destruct (served_Ok _ _ _ Hs) as [text [_ Hc]].
      rewrite Hc. simpl.
      destruct (json_Unmarshal text); simpl; discriminate.
Qed.

(** A read through the alias against a warm cache. *)
Lemma resource_read_result_witness :
  exists text,
    json_Marshal (Codec:=Fixtures.lineCodec) [Fixtures.test] = Ok text
    /\ fst (run Fixtures.serving
              (HandleLexiconResource (codec:=Fixtures.lineCodec)
                 {| mcp.Params_URI := LexiconResourceURIAlias |}) Fixtures.warm)
       = Ok {| mcp.Contents :=
                 [ {| mcp.URI := LexiconResourceURIAlias;
                      mcp.MIMEType := "application/json";
                      mcp.Text := text |} ] |}.
Proof.
  destruct (@resource_read_result Fixtures.lineCodec Fixtures.serving Fixtures.warm
              {| mcp.Params_URI := LexiconResourceURIAlias |} _ eq_refl)
    as [[text [Hm [Hc _]]] _].
  exists text. split; [exact Hm |].
  vm_compute in Hm. inversion Hm; subst. vm_compute. reflexivity.
Defined.

(** ** The cached flag of a direct query *)

(** C1, on the code.  A direct query with [refresh=false] against an empty
    cache fetches, and still reports [cached=true]: [GetLexicon] computes
    the flag from the timestamp after the resource handler has stored it.
    (The comment in the source says the check is for what was cached before
    the resource call, and [getLexiconWithURL] reports [false] here.) *)
Theorem first_query_reports_cached {codec : Codec} (env : Env) (w : World)
  (entries : list LexiconEntry) (text : string) (decoded : list LexiconEntry) :
  lexiconCache w = [] ->
  upcoming env w = Ok entries ->
  json_Marshal entries = Ok text ->
  json_Unmarshal text = Ok decoded ->
  cacheFresh lexiconCacheTTL (clock env (ticks w)) (clock env (S (ticks w))) = true ->
  let r := run env (GetLexicon {| Refresh := false |}) w in
  fst r = Ok {| Entries := decoded; Source := lexiconURL; Cached := true |}
  /\ requests (snd r) = S (requests w)
  /\ lexiconCache (snd r) = entries.
Proof.
  intros Hempty Hup Hm Hu Hfresh. cbv zeta.
  rewrite GetLexicon_query_run, HandleLexiconResource_run. cbv zeta.
  rewrite Hempty, Hup. simpl. unfold served. rewrite Hm. simpl. rewrite Hu.
  rewrite Hfresh.
  apply andb_prop in Hfresh. destruct Hfresh as [Hz _].
  apply negb_true_iff in Hz. rewrite Hz. simpl. auto.
Qed.

(** The first query of a process against a remote that serves the two
    entries of the end-to-end scenario. *)
Lemma first_query_reports_cached_witness :
  fst (run Fixtures.serving
         (GetLexicon (codec:=Fixtures.lineCodec) {| Refresh := false |}) start)
  = Ok {| Entries := [Fixtures.assessment; Fixtures.control];
          Source := lexiconURL;
          Cached := true |}.
Proof.
  apply (@first_query_reports_cached Fixtures.lineCodec Fixtures.serving start
           [Fixtures.assessment; Fixtures.control]
           (Fixtures.encode [Fixtures.assessment; Fixtures.control])
           [Fixtures.assessment; Fixtures.control]);
    vm_compute; reflexivity.
Defined.

(** The test helper gets the flag right on the same input: it reports
    [cached=false] exactly when it fetched. *)
Lemma getLexiconWithURL_flag {codec : Codec} (env : Env) (w : World)
  (input : InputGetLexicon) (url : string) (out : OutputGetLexicon) :
  let r := run env (getLexiconWithURL input url) w in
  fst r = Ok out ->
  (Cached out = false <-> requests (snd r) = S (requests w))
  /\ (Cached out = true <-> requests (snd r) = requests w).
Proof.
  cbv zeta. rewrite getLexiconWithURL_run. cbv zeta.
  destruct (negb (Refresh input) && cacheFresh _ _ _); simpl.
  - intros H; inversion H; subst; simpl. repeat split; try discriminate; auto.
    intros Hn. exfalso. eapply Nat.neq_succ_diag_r. exact Hn.
  - destruct (fetched _); simpl; [| discriminate].
    intros H; inversion H; subst; simpl. repeat split; try discriminate; auto.
    intros Hn. exfalso. eapply Nat.neq_succ_diag_l. exact Hn.
Qed.

(** A query against a cache that is filled and fresh is served from it, with
    no request made; its flag is the freshness at the later check. *)
Lemma query_served_from_cache {codec : Codec} (env : Env) (w : World)
  (text : string) (decoded : list LexiconEntry) :
  lexiconCache w <> [] ->
  cacheFresh lexiconCacheTTL (lexiconCacheTime w) (clock env (ticks w)) = true ->
  json_Marshal (lexiconCache w) = Ok text ->
  json_Unmarshal text = Ok decoded ->
  let r := run env (GetLexicon {| Refresh := false |}) w in
  fst r = Ok {| Entries := decoded;
                Source := lexiconURL;
                Cached := cacheFresh lexiconCacheTTL (lexiconCacheTime w)
                            (clock env (S (ticks w))) |}
  /\ requests (snd r) = requests w
  /\ cached (snd r) = cached w.
Proof.
  intros Hne Hfresh Hm Hu. cbv zeta.
  rewrite GetLexicon_query_run, HandleLexiconResource_run. cbv zeta.
  destruct (lexiconCache w) as [| e0 rest] eqn:Hc; [congruence |].
  pose proof Hfresh as Hf. unfold cacheFresh in Hf.
  apply andb_prop in Hf. destruct Hf as [Hz Hlt].
  apply negb_true_iff in Hz. rewrite Hz. simpl.
  rewrite Z.leb_antisym, Hlt. simpl.
  unfold served. simpl. rewrite Hm. simpl. rewrite Hu, Hz. simpl.
  unfold cached. simpl. rewrite Hc. auto.
Qed.

Example end_to_end_queries :
  let codec := Fixtures.lineCodec in
  let first := run Fixtures.serving (GetLexicon {| Refresh := false |}) start in
  let second := run Fixtures.serving (GetLexicon {| Refresh := false |}) (snd first) in
  let helper := run Fixtures.serving (getLexiconWithURL {| Refresh := false |} lexiconURL) start in
  option_map Cached (match fst first with Ok o => Some o | Err _ => None end) = Some true
  /\ option_map Cached (match fst second with Ok o => Some o | Err _ => None end) = Some true
  /\ option_map Cached (match fst helper with Ok o => Some o | Err _ => None end) = Some false
  /\ requests (snd first) = 1%nat
  /\ requests (snd second) = 1%nat.
Proof. vm_compute. repeat split. Qed.

(** ** Freshness *)

Lemma getLexiconWithURL_hit {codec : Codec} (env : Env) (w : World) (url : string) :
  let r := run env (getLexiconWithURL {| Refresh := false |} url) w in
  requests (snd r) = requests w <->
  cacheFresh lexiconCacheTTL (lexiconCacheTime w) (clock env (ticks w)) = true.
Proof.
  cbv zeta. rewrite getLexiconWithURL_run. cbv zeta. simpl.
  destruct (cacheFresh _ _ _); simpl.
  - tauto.
  - destruct (fetched _); simpl; split; try discriminate;
      intros Hn; exfalso; eapply Nat.neq_succ_diag_l; exact Hn.
Qed.

Lemma HandleLexiconResource_hit {codec : Codec} (env : Env) (w : World)
  (req : mcp.ReadResourceRequest) :
  let r := run env (HandleLexiconResource req) w in
  requests (snd r) = requests w <->
  lexiconCache w <> []
  /\ cacheFresh lexiconCacheTTL (lexiconCacheTime w) (clock env (ticks w)) = true.
Proof.
  cbv zeta. rewrite HandleLexiconResource_run. unfold cacheFresh.
  rewrite Z.leb_antisym.
  destruct (lexiconCache w) as [| e0 rest]; simpl.
  - destruct (upcoming env w); simpl; split; try tauto;
      intros Hn; exfalso; eapply Nat.neq_succ_diag_l; exact Hn.
  - destruct (time.IsZero (lexiconCacheTime w)); simpl.
    + destruct (upcoming env w); simpl; split;
        try (intros [_ H]; discriminate);
        intros Hn; exfalso; eapply Nat.neq_succ_diag_l; exact Hn.
    + destruct (_ <? _); simpl.
      * split; [intros _; split; [discriminate | reflexivity] | reflexivity].
      * destruct (upcoming env w); simpl; split;
          try (intros [_ H]; discriminate);
          intros Hn; exfalso; eapply Nat.neq_succ_diag_l; exact Hn.
Qed.

(** The handler fetches exactly when the condition of resource.go:41 holds. *)
Lemma HandleLexiconResource_stale {codec : Codec} (env : Env) (w : World)
  (req : mcp.ReadResourceRequest) :
  requests (snd (run env (HandleLexiconResource req) w)) = S (requests w) <->
  cacheStale (lexiconCache w) (lexiconCacheTime w) (clock env (ticks w)) = true.
Proof.
  rewrite HandleLexiconResource_run. unfold cacheStale.
  destruct (_ || _); simpl.
  - destruct (upcoming env w); simpl; tauto.
  - destruct (_ <=? _); simpl.
    + destruct (upcoming env w); simpl; tauto.
    + split; [| discriminate].
      intros Hn. exfalso. eapply Nat.neq_succ_diag_r. exact Hn.
Qed.

(** C5. The freshness condition of the code is: the stored time is not the
    zero time and the time since it is less than the bound; the bound is
    fixed at 24 hours; both access paths fetch or serve by it.  For every
    positive bound, a cache stamped at [t] is fresh at every [t'] from [t]
    up to, not including, [t + ttl], and stale from [t + ttl] on. *)
Theorem freshness_law {codec : Codec} (env : Env)
  (ttl : time.Duration) (t t' : time.Time) :
  0 < ttl <= time.maxDuration ->
  t <> time.zero ->
  t <= t' ->
  lexiconCacheTTL = 24 * (60 * (60 * 1000000000))
  /\ (forall fetchedAt now,
         cacheFresh ttl fetchedAt now = true <-> spec_fresh now ttl fetchedAt)
  /\ (t' < t + ttl -> cacheFresh ttl t t' = true)
  /\ (t + ttl <= t' -> cacheFresh ttl t t' = false)
  /\ (forall w entries,
         upcoming env w = Ok entries -> clock env (ticks w) = t ->
         lexiconCacheTime (snd (run env (GetLexicon {| Refresh := true |}) w)) = t)
  /\ (forall w url,
         requests (snd (run env (getLexiconWithURL {| Refresh := false |} url) w))
         = requests w
         <-> cacheFresh lexiconCacheTTL (lexiconCacheTime w) (clock env (ticks w)) = true)
  /\ (forall w req,
         requests (snd (run env (HandleLexiconResource req) w)) = requests w
         <-> lexiconCache w <> []
             /\ cacheFresh lexiconCacheTTL (lexiconCacheTime w) (clock env (ticks w)) = true).
Proof.
  intros [Hpos Hmax] Hnz Hle.
  assert (Hrange : time.minDuration < ttl <= time.maxDuration).
  { split; [| assumption]. unfold time.minDuration. lia. }
  split; [reflexivity |].
  split; [intros; apply cacheFresh_spec; assumption |].
  split; [| split]; [| | split; [| split]].
  - intros Hlt. apply cacheFresh_spec; [assumption |]. split; [assumption | lia].
  - intros Hge. apply not_true_is_false. intros Hf.
    apply cacheFresh_spec in Hf; [| assumption]. destruct Hf as [_ Hf]. lia.
  - intros w entries Hup Hclock. rewrite GetLexicon_refresh_run, Hup. simpl.
    assumption.
  - intros w url. apply getLexiconWithURL_hit.
  - intros w req. apply HandleLexiconResource_hit.
Qed.

(** A cache stamped at [t0] is fresh an hour later, and stale a day later. *)
Lemma freshness_law_witness :
  cacheFresh lexiconCacheTTL Fixtures.t0 (Fixtures.t0 + time.Hour) = true
  /\ cacheFresh lexiconCacheTTL Fixtures.t0 (Fixtures.t0 + 24 * time.Hour) = false.
Proof.
  assert (H1 : 0 < lexiconCacheTTL <= time.maxDuration).
  { vm_compute. split; [reflexivity | discriminate]. }
  assert (H2 : Fixtures.t0 <> time.zero).
  { vm_compute. discriminate. }
  split.
  - assert (H3 : Fixtures.t0 <= Fixtures.t0 + time.Hour).
    { vm_compute. discriminate. }
    apply (@freshness_law Fixtures.lineCodec Fixtures.serving _ _ _ H1 H2 H3).
    vm_compute. reflexivity.
  - assert (H3 : Fixtures.t0 <= Fixtures.t0 + 24 * time.Hour).
    { vm_compute. discriminate. }
    apply (@freshness_law Fixtures.lineCodec Fixtures.serving _ _ _ H1 H2 H3).
    vm_compute. discriminate.
Defined.

(** ** Calls that overlap *)

Lemma exec_cons (env : Env) (i : nat) (sched : list nat) (c : Conf) :
  exec env (i :: sched) c = exec env sched (sched_step env c i).
Proof. reflexivity. Qed.

(** A call that runs alone: whatever the schedule, its trace is a prefix of
    the trace of the sequential run. *)
Lemma exec_alone (env : Env) (sched : list nat) (p : Prog LexE Reply)
  (w : World) (tr : list Step) :
  exists n,
    trace (exec env sched {| threads := [p]; world := w; trace := tr |})
    = (tr ++ firstn n (trace_of env 0 p w))%list.
Proof.
  revert p w tr. induction sched as [| i sched IH]; intros p w tr.
  - exists 0%nat. simpl. rewrite app_nil_r. reflexivity.
  - rewrite exec_cons. unfold sched_step. cbn [threads world trace]. destruct i as [| j].
    + cbn [nth_error]. destruct p as [a | X e k]; cbn [step].
      * apply IH.
      * destruct (handle env e w) as [x w'] eqn:He.
        destruct (IH (k x) w'
                    (tr ++ [ {| thread := 0; action := action_of e x;
                                memory := cached w' |} ])%list) as [n Hn].
        exists (S n). cbn [replace]. rewrite Hn. cbn [trace_of]. rewrite He.
        cbn [firstn]. rewrite <- app_assoc. reflexivity.
    + replace (nth_error [p] (S j)) with (@None (Prog LexE Reply))
        by (destruct j; reflexivity).
      apply IH.
Qed.

Ltac torn_free :=
  let s := fresh "s" in
  let Hin := fresh "Hin" in
  let Hload := fresh "Hload" in
  intros s Hin Hload; simpl in Hin;
  repeat (destruct Hin as [<- | Hin];
          [ simpl in Hload; try discriminate Hload;
            unfold cached; simpl; auto 12 | ]);
  try contradiction.

Ltac prefixes n :=
  repeat (destruct n as [| n]; [ cbn [firstn]; torn_free | cbn [firstn] ]);
  try (rewrite firstn_nil); torn_free.

Section Sequential.

Context {codec : Codec}.
Variable env : Env.

Lemma HandleLexiconResource_alone (req : mcp.ReadResourceRequest) (w : World) (n : nat) :
  TornFree (cached w) (firstn n (trace_of env 0 (HandleLexiconResource req) w)).
Proof.
  symex; prefixes n.
Qed.

Lemma GetLexicon_alone (input : InputGetLexicon) (w : World) (n : nat) :
  TornFree (cached w) (firstn n (trace_of env 0 (GetLexicon input) w)).
Proof.
  destruct input as [[|]]; symex; prefixes n.
Qed.

Lemma alone_atomic (p : Prog LexE Reply) (w : World) :
  (forall n, TornFree (cached w) (firstn n (trace_of env 0 p w))) ->
  AtomicUpdates env [p] w.
Proof.
  intros H sched. unfold spawn.
  destruct (exec_alone env sched p w []) as [n Hn]. rewrite Hn. apply H.
Qed.

Lemma HandleLexiconResource_paired (req : mcp.ReadResourceRequest) (w : World) :
  PairedUpdate env w (snd (run env (HandleLexiconResource req) w)).
Proof.
  unfold PairedUpdate. rewrite HandleLexiconResource_run.
  destruct (_ || _); [| destruct (_ <=? _)];
    try destruct (upcoming env w) as [entries | e]; simpl; auto.
  - right. exists entries, (ticks w). unfold cached. simpl. auto.
  - right. exists entries, (S (ticks w)). unfold cached. simpl. auto.
Qed.

Lemma GetLexicon_paired (input : InputGetLexicon) (w : World) :
  PairedUpdate env w (snd (run env (GetLexicon input) w)).
Proof.
  destruct input as [[|]].
  - unfold PairedUpdate. rewrite GetLexicon_refresh_run.
    destruct (upcoming env w) as [entries | e]; simpl; auto.
    right. exists entries, (ticks w). unfold cached. simpl. auto.
  - rewrite GetLexicon_query_run. cbv zeta.
    pose proof (HandleLexiconResource_paired
                  {| mcp.Params_URI := lexiconResourceURI |} w) as Hp.
    destruct (run env (HandleLexiconResource _) w) as [r w1]. simpl in *.
    assert (Hgoal : forall w2, cached w2 = cached w1 -> (ticks w1 <= ticks w2)%nat ->
                               PairedUpdate env w w2).
    { intros w2 Hc Ht. destruct Hp as [Hp | [entries [n [Hup [Hn Hp]]]]].
      - left. congruence.
      - right. exists entries, n. repeat split; try tauto; try congruence.
        eapply Nat.lt_le_trans; [apply Hn | exact Ht]. }
    destruct r as [result | e]; simpl; [| apply Hgoal; auto].
    destruct (mcp.Contents result) as [| c0 rest]; simpl; [apply Hgoal; auto |].
    destruct (json_Unmarshal (mcp.Text c0)); simpl; [| apply Hgoal; auto].
    destruct (time.IsZero (lexiconCacheTime w1)); apply Hgoal; simpl; auto.
Qed.

End Sequential.

(** C2, as the code has it.  The two fields of the cache are assigned by two
    consecutive statements of one call, with no lock.  A call that runs with
    no other call in between never reads a torn cache, under any schedule,
    and leaves the cache either as it found it or holding the entries of its
    own fetch with a clock reading of its own. *)
Theorem updates_atomic_when_alone {codec : Codec} (env : Env) (w : World) :
  (forall input,
      AtomicUpdates env [callGetLexicon input] w
      /\ PairedUpdate env w (snd (run env (GetLexicon input) w)))
  /\ (forall req,
      AtomicUpdates env [callHandleLexiconResource req] w
      /\ PairedUpdate env w (snd (run env (HandleLexiconResource req) w))).
Proof.
  split.
  - intros input. split; [| apply GetLexicon_paired].
    apply alone_atomic. intros n. unfold callGetLexicon.
    rewrite trace_of_bind. simpl trace_of at 2. rewrite app_nil_r.
    apply GetLexicon_alone.
  - intros req. split; [| apply HandleLexiconResource_paired].
    apply alone_atomic. intros n. unfold callHandleLexiconResource.
    rewrite trace_of_bind. simpl trace_of at 2. rewrite app_nil_r.
    apply HandleLexiconResource_alone.
Qed.

(** C2, as stated, fails.  From the empty cache a first refresh fills the
    cache with one entry at the first clock reading.  A second refresh has
    assigned its two entries and not yet its time when a resource read loads
    the cache: the read sees the entries of the second fetch paired with the
    timestamp of the first. *)
Lemma overlapping_calls_tear :
  ~ AtomicUpdates Fixtures.changing
      [callGetLexicon (codec:=Fixtures.lineCodec) {| Refresh := true |};
       callGetLexicon (codec:=Fixtures.lineCodec) {| Refresh := true |};
       callHandleLexiconResource (codec:=Fixtures.lineCodec) {| mcp.Params_URI := "" |}]
      start.
Proof.
  intros H.
  pose (torn := {| thread := 2;
                   action := ALoadCache [Fixtures.assessment; Fixtures.control];
                   memory := ([Fixtures.assessment; Fixtures.control],
                              Fixtures.tick 0) |}).
  specialize (H [0; 0; 0; 0; 1; 1; 2; 1; 1]%nat torn).
  assert (Hin : In torn
                  (trace (exec Fixtures.changing [0; 0; 0; 0; 1; 1; 2; 1; 1]%nat
                            (spawn [callGetLexicon (codec:=Fixtures.lineCodec)
                                      {| Refresh := true |};
                                    callGetLexicon (codec:=Fixtures.lineCodec)
                                      {| Refresh := true |};
                                    callHandleLexiconResource (codec:=Fixtures.lineCodec)
                                      {| mcp.Params_URI := "" |}]
                               start)))).
  { vm_compute. do 6 right. left. reflexivity. }
  specialize (H Hin eq_refl). vm_compute in H.
  destruct H as [H | [H | [H | H]]]; [discriminate H .. | exact H].
Qed.

(** The whole of such a run, on a warm cache: the read returns the new
    entries, judged fresh by the time of the old ones, which the cache still
    carries; the refresh stamps it only then. *)
Example overlapping_calls_run :
  let codec := Fixtures.lineCodec in
  let calls := [callGetLexicon {| Refresh := true |};
                callHandleLexiconResource {| mcp.Params_URI := "" |}] in
  let c := exec Fixtures.serving [0; 0; 1; 1; 1; 1; 1]%nat (spawn calls Fixtures.warm) in
  let c' := exec Fixtures.serving [0; 0]%nat c in
  nth_error (threads c) 1
  = Some (Ret (ResourceReply
                 (served {| mcp.Params_URI := "" |}
                    [Fixtures.assessment; Fixtures.control])))
  /\ cached (world c) = ([Fixtures.assessment; Fixtures.control], Fixtures.t0 - time.Hour)
  /\ updates (trace c) = []
  /\ updates (trace c')
     = [([Fixtures.assessment; Fixtures.control], Fixtures.tick 1)].
Proof. vm_compute. repeat split. Qed.

(** ** Strings *)

Section StringFacts.

Local Open Scope string_scope.

Lemma append_nil_r (s : string) : s ++ "" = s.
Proof. induction s as [| c s IH]; simpl; [| rewrite IH]; reflexivity. Qed.

Lemma append_assoc (s t u : string) : (s ++ t) ++ u = s ++ (t ++ u).
Proof. induction s as [| c s IH]; simpl; [| rewrite IH]; reflexivity. Qed.

Lemma rev_append_spec (s acc : string) :
  strings.rev_append s acc = strings.rev s ++ acc.
Proof.
  revert acc. unfold strings.rev.
  induction s as [| c s IH]; intros acc; simpl.
  - reflexivity.
  - rewrite (IH (String c acc)), (IH (String c "")), append_assoc. reflexivity.
Qed.

Lemma rev_cons (c : ascii) (s : string) :
  strings.rev (String c s) = strings.rev s ++ String c "".
Proof. unfold strings.rev at 1. simpl. apply rev_append_spec. Qed.

Lemma rev_app (s t : string) :
  strings.rev (s ++ t) = strings.rev t ++ strings.rev s.
Proof.
  induction s as [| c s IH]; simpl.
  - rewrite append_nil_r. reflexivity.
  - rewrite !rev_cons, IH, append_assoc. reflexivity.
Qed.

Lemma rev_involutive (s : string) : strings.rev (strings.rev s) = s.
Proof.
  induction s as [| c s IH].
  - reflexivity.
  - rewrite rev_cons, rev_app, IH. reflexivity.
Qed.

Lemma rev_empty (s : string) : strings.rev s = "" -> s = "".
Proof.
  intros H. rewrite <- (rev_involutive s), H. reflexivity.
Qed.

Lemma string_length_ind (P : string -> Prop) :
  (forall s, (forall t, (String.length t < String.length s)%nat -> P t) -> P s) ->
  forall s, P s.
Proof.
  intros Hstep s.
  assert (H : forall n t, (String.length t < n)%nat -> P t).
  { induction n as [| n IH]; intros t Hlt.
    - inversion Hlt.
    - apply Hstep. intros u Hu. apply IH. lia. }
  apply (H (S (String.length s))). lia.
Qed.

Lemma led_app (s t : string) : led s = true -> led (s ++ t) = true.
Proof.
  destruct s as [| a [| b [| c s]]]; simpl; try discriminate.
  - rewrite orb_false_r. intros ->. reflexivity.
  - rewrite orb_false_r. intros H. apply orb_true_iff in H.
    destruct H as [-> | ->]; [reflexivity |].
    destruct t; simpl; rewrite ?orb_true_r; reflexivity.
  - intros H. exact H.
Qed.

Lemma led_prefix (s t : string) : led (s ++ t) = false -> led s = false.
Proof.
  intros H. destruct (led s) eqn:Hs; [| reflexivity].
  rewrite (led_app s t Hs) in H. discriminate.
Qed.

Lemma TrimLeft_unled (s : string) : led s = false -> strings.TrimLeft s = s.
Proof.
  destruct s as [| a [| b [| c s]]]; simpl; try reflexivity.
  - rewrite orb_false_r. intros ->. reflexivity.
  - rewrite orb_false_r. intros H. apply orb_false_iff in H.
    destruct H as [-> ->]. reflexivity.
  - intros H. apply orb_false_iff in H. destruct H as [-> H].
    apply orb_false_iff in H. destruct H as [-> ->]. reflexivity.
Qed.

(** What [TrimLeft] leaves does not begin with white space. *)
Lemma TrimLeft_clean (s : string) : led (strings.TrimLeft s) = false.
Proof.
  induction s as [s IH] using string_length_ind.
  destruct s as [| a r1]; [reflexivity |].
  cbn [strings.TrimLeft].
  destruct (strings.asciiSpace a) eqn:Ha; [apply IH; simpl; lia |].
  destruct r1 as [| b r2]; [simpl; rewrite Ha; reflexivity |].
  destruct (strings.space2 a b) eqn:Hb; [apply IH; simpl; lia |].
  destruct r2 as [| c r3]; [simpl; rewrite Ha, Hb; reflexivity |].
  destruct (strings.space3 a b c) eqn:Hc; [apply IH; simpl; lia |].
  simpl. rewrite Ha, Hb, Hc. reflexivity.
Qed.

(** [TrimLeftRev] returns a suffix. *)
Lemma TrimLeftRev_suffix (r : string) :
  exists p, r = p ++ strings.TrimLeftRev r.
Proof.
  induction r as [r IH] using string_length_ind.
  destruct r as [| c r1]; [exists ""; reflexivity |].
  cbn [strings.TrimLeftRev].
  destruct (strings.asciiSpace c).
  { destruct (IH r1) as [p Hp]; [simpl; lia |].
    exists (String c p). simpl. rewrite <- Hp. reflexivity. }
  destruct r1 as [| b r2]; [exists ""; reflexivity |].
  destruct (strings.space2 b c).
  { destruct (IH r2) as [p Hp]; [simpl; lia |].
    exists (String c (String b p)). simpl. rewrite <- Hp. reflexivity. }
  destruct r2 as [| a r3]; [exists ""; reflexivity |].
  destruct (strings.space3 a b c).
  { destruct (IH r3) as [p Hp]; [simpl; lia |].
    exists (String c (String b (String a p))). simpl. rewrite <- Hp. reflexivity. }
  exists "". reflexivity.
Qed.

(** When [TrimLeftRev] leaves nothing of a reversed string, the string
    itself began with white space. *)
Lemma TrimLeftRev_empty (r : string) :
  strings.TrimLeftRev r = "" -> r = "" \/ led (strings.rev r) = true.
Proof.
  induction r as [r IH] using string_length_ind.
  destruct r as [| c r1]; [left; reflexivity |].
  cbn [strings.TrimLeftRev]. intros H. right.
  destruct (strings.asciiSpace c) eqn:Hc.
  { rewrite rev_cons. destruct (IH r1) as [-> | Hl]; [simpl; lia | exact H | |].
    - simpl. rewrite Hc. reflexivity.
    - apply led_app. exact Hl. }
  destruct r1 as [| b r2]; [discriminate |].
  destruct (strings.space2 b c) eqn:Hb.
  { rewrite !rev_cons, append_assoc.
    destruct (IH r2) as [-> | Hl]; [simpl; lia | exact H | |].
    - simpl. rewrite Hb, orb_true_r. reflexivity.
    - apply led_app. exact Hl. }
  destruct r2 as [| a r3]; [discriminate |].
  destruct (strings.space3 a b c) eqn:Ha; [| discriminate].
  rewrite !rev_cons, !append_assoc.
  destruct (IH r3) as [-> | Hl]; [simpl; lia | exact H | |].
  - simpl. rewrite Ha, !orb_true_r. reflexivity.
  - apply led_app. exact Hl.
Qed.

(** [TrimRight] returns a prefix. *)
Lemma TrimRight_prefix (s : string) : exists v, s = strings.TrimRight s ++ v.
Proof.
  unfold strings.TrimRight.
  destruct (TrimLeftRev_suffix (strings.rev s)) as [p Hp].
  exists (strings.rev p).
  rewrite <- rev_app, <- Hp, rev_involutive. reflexivity.
Qed.

Lemma TrimRight_nonempty (s : string) :
  s <> "" -> led s = false -> strings.TrimRight s <> "".
Proof.
  intros Hne Hled Hempty. unfold strings.TrimRight in Hempty.
  apply rev_empty in Hempty.
  destruct (TrimLeftRev_empty _ Hempty) as [Hr | Hl].
  - apply Hne. apply rev_empty. exact Hr.
  - rewrite rev_involutive in Hl. congruence.
Qed.

(** A string is blank for [TrimSpace] exactly when [TrimLeft] consumes it. *)
Lemma TrimSpace_empty (s : string) :
  strings.TrimSpace s = "" <-> strings.TrimLeft s = "".
Proof.
  unfold strings.TrimSpace. split.
  - intros H. destruct (strings.TrimLeft s) as [| a r] eqn:Hs; [reflexivity |].
    exfalso. revert H. apply TrimRight_nonempty; [discriminate |].
    rewrite <- Hs. apply TrimLeft_clean.
  - intros ->. reflexivity.
Qed.

Lemma TrimSpace_clean (s : string) : led (strings.TrimSpace s) = false.
Proof.
  unfold strings.TrimSpace.
  destruct (TrimRight_prefix (strings.TrimLeft s)) as [v Hv].
  apply led_prefix with (t := v). rewrite <- Hv. apply TrimLeft_clean.
Qed.

(** The first piece of a split is a prefix, and is not empty when the string
    does not begin with the separator. *)
Lemma Split_head (s : string) (sep : ascii) :
  exists h t rest,
    strings.Split s sep = h :: t
    /\ s = h ++ rest
    /\ forall a r, s = String a r -> a <> sep -> exists h', h = String a h'.
Proof.
  induction s as [| c s IH].
  - exists "", [], "". repeat split. intros a r H. discriminate.
  - simpl. destruct (Ascii.eqb_spec c sep) as [-> | Hne].
    + exists "", (strings.Split s sep), (String sep s). repeat split.
      intros a r H Ha. inversion H; subst. contradiction.
    + destruct IH as [h [t [rest [Hs [Hr _]]]]]. rewrite Hs.
      exists (String c h), t, rest. repeat split.
      * simpl. rewrite <- Hr. reflexivity.
      * intros a r H _. inversion H; subst. eauto.
Qed.

(** An error text that is not blank has a line that is not blank. *)
Lemma nonblank_lines_nonempty (errorOutput : string) :
  strings.TrimSpace errorOutput <> "" -> nonblank_lines errorOutput <> [].
Proof.
  intros Hne. unfold nonblank_lines.
  pose proof (TrimSpace_clean errorOutput) as Hclean.
  destruct (strings.TrimSpace errorOutput) as [| a r] eqn:HT; [congruence |].
  assert (Ha : strings.asciiSpace a = false).
  { simpl in Hclean. apply orb_false_iff in Hclean. tauto. }
  assert (Hlf : a <> LF).
  { intros ->. discriminate Ha. }
  destruct (Split_head (String a r) LF) as [h [t [rest [Hs [Hr Hh]]]]].
  destruct (Hh a r eq_refl Hlf) as [h' ->].
  rewrite Hs. cbn [filter].
  assert (Hline : strings.TrimSpace (String a h') <> "").
  { assert (Hled : led (String a h') = false).
    { apply led_prefix with (t := rest). rewrite <- Hr. exact Hclean. }
    unfold strings.TrimSpace. rewrite (TrimLeft_unled _ Hled).
    apply TrimRight_nonempty; [discriminate | exact Hled]. }
  destruct (strings.TrimSpace (String a h')); [congruence |].
  simpl. discriminate.
Qed.

End StringFacts.

Example TrimSpace_ex1 :
  strings.TrimSpace (String LF "  a b " ++ String LF "") = "a b".
Proof. reflexivity. Qed.

(** U+2003 (EM SPACE, bytes E2 80 83) before and U+00A0 after. *)
Example TrimSpace_ex2 :
  strings.TrimSpace (String (ascii_of_N 226) (String (ascii_of_N 128)
    (String (ascii_of_N 131) "x" ++ String (ascii_of_N 194) (String (ascii_of_N 160) ""))))
  = "x".
Proof. reflexivity. Qed.

(** A continuation byte alone is no white space. *)
Example TrimSpace_ex3 :
  strings.TrimSpace (String (ascii_of_N 133) " x") = String (ascii_of_N 133) " x".
Proof. reflexivity. Qed.

Example Split_ex1 :
  strings.Split ("a" ++ String LF "" ++ String LF "b") LF = ["a"; ""; "b"].
Proof. reflexivity. Qed.

Example Split_ex2 : strings.Split "" LF = [""].
Proof. reflexivity. Qed.

(** ** The validator *)

Lemma isEmpty_true (s : string) : strings.isEmpty s = true <-> s = "".
Proof. destruct s; simpl; split; congruence. Qed.

Lemma isEmpty_false (s : string) : strings.isEmpty s = false <-> s <> "".
Proof. destruct s; simpl; split; congruence. Qed.

Lemma HasPrefix_marked (definition : string) :
  strings.HasPrefix ("#" ++ definition) "#" = true.
Proof. reflexivity. Qed.

Lemma normalized_marked (definition : string) :
  normalized ("#" ++ definition) = "#" ++ definition.
Proof. unfold normalized. rewrite HasPrefix_marked. reflexivity. Qed.

Lemma normalized_unmarked (definition : string) :
  strings.HasPrefix definition "#" = false ->
  normalized definition = "#" ++ definition.
Proof. unfold normalized. intros ->. reflexivity. Qed.

(** C7. With an empty document text or an empty definition name the
    validator returns a function error naming the field that was required
    (the document first, when both are empty), and makes no call into the
    registry or the schema engine before it does. *)
Theorem empty_input_rejected (sdk : validate.Cue)
  (input : validate.InputValidateGemaraArtifact) :
  validate.ArtifactContent input = "" \/ validate.Definition_ input = "" ->
  validate.runCue (validate.ValidateGemaraArtifact sdk input)
  = (Err (if strings.isEmpty (validate.ArtifactContent input)
          then "artifact_content is required"
          else "definition is required"),
     []).
Proof.
  unfold validate.ValidateGemaraArtifact.
  destruct (strings.isEmpty (validate.ArtifactContent input)) eqn:Hc.
  - intros _. reflexivity.
  - intros [H | H].
    + apply isEmpty_false in Hc. contradiction.
    + apply isEmpty_true in H. rewrite H. reflexivity.
Qed.

(** The two rejections of the test table. *)
Lemma empty_input_rejected_witness :
  validate.runCue
    (validate.ValidateGemaraArtifact Fixtures.toyCue
       {| validate.ArtifactContent := "";
          validate.Definition_ := "#ControlCatalog" |})
  = (Err "artifact_content is required", [])
  /\ validate.runCue
       (validate.ValidateGemaraArtifact Fixtures.toyCue
          {| validate.ArtifactContent := "test: content";
             validate.Definition_ := "" |})
     = (Err "definition is required", []).
Proof.
  split.
  - apply (empty_input_rejected Fixtures.toyCue
             {| validate.ArtifactContent := "";
                validate.Definition_ := "#ControlCatalog" |}).
    left. reflexivity.
  - apply (empty_input_rejected Fixtures.toyCue
             {| validate.ArtifactContent := "test: content";
                validate.Definition_ := "" |}).
    right. reflexivity.
Defined.

(** C8, as the code has it.  A definition name that is not empty and lacks
    the marker is validated as the same name with the marker: the two calls
    are the same program, so they make the same SDK calls and return the same
    outcome.  ControlCatalog is such a name. *)
Theorem marker_prepended (sdk : validate.Cue) (content definition : string) :
  definition <> "" ->
  strings.HasPrefix definition "#" = false ->
  validate.ValidateGemaraArtifact sdk
    {| validate.ArtifactContent := content; validate.Definition_ := definition |}
  = validate.ValidateGemaraArtifact sdk
      {| validate.ArtifactContent := content;
         validate.Definition_ := "#" ++ definition |}
  /\ validate.runCue
       (validate.ValidateGemaraArtifact sdk
          {| validate.ArtifactContent := content; validate.Definition_ := definition |})
     = validate.runCue
         (validate.ValidateGemaraArtifact sdk
            {| validate.ArtifactContent := content;
               validate.Definition_ := "#" ++ definition |}).
Proof.
  intros Hne Hp.
  assert (Heq : validate.ValidateGemaraArtifact sdk
                  {| validate.ArtifactContent := content;
                     validate.Definition_ := definition |}
                = validate.ValidateGemaraArtifact sdk
                    {| validate.ArtifactContent := content;
                       validate.Definition_ := "#" ++ definition |}).
  { unfold validate.ValidateGemaraArtifact. cbn [validate.ArtifactContent validate.Definition_].
    apply isEmpty_false in Hne. rewrite Hne, Hp.
    rewrite HasPrefix_marked.
    change (strings.isEmpty ("#" ++ definition)) with false.
    reflexivity. }
  split; [exact Heq | rewrite Heq; reflexivity].
Qed.

Lemma marker_prepended_witness :
  validate.runCue
    (validate.ValidateGemaraArtifact Fixtures.toyCue
       {| validate.ArtifactContent := Fixtures.manifest;
          validate.Definition_ := "ControlCatalog" |})
  = validate.runCue
      (validate.ValidateGemaraArtifact Fixtures.toyCue
         {| validate.ArtifactContent := Fixtures.manifest;
            validate.Definition_ := "#ControlCatalog" |}).
Proof.
  apply (marker_prepended Fixtures.toyCue Fixtures.manifest "ControlCatalog").
  - discriminate.
  - reflexivity.
Defined.

(** C8, as stated, fails at the empty name: it does not start with the
    marker, and it is rejected before any normalization, while the marker
    alone is a name the validator goes on to look up. *)
Lemma marker_not_optional_for_empty_name : ~ MarkerOptional Fixtures.toyCue.
Proof.
  intros H. specialize (H "a: 1" "" eq_refl). vm_compute in H. discriminate H.
Qed.

(** Splits on whatever the validator's run in [H] branches on next. *)
Ltac vbranch H :=
  match type of H with
  | context [if strings.isEmpty ?s then _ else _] => destruct (strings.isEmpty s) eqn:?
  | context [match validate.modconfig_NewRegistry ?sdk with _ => _ end] =>
      destruct (validate.modconfig_NewRegistry sdk) eqn:?
  | context [match validate.load_Instances ?sdk ?a ?r with _ => _ end] =>
      destruct (validate.load_Instances sdk a r) eqn:?
  | context [match validate.Instance_Err ?sdk ?i with _ => _ end] =>
      destruct (validate.Instance_Err sdk i) eqn:?
  | context [match validate.Value_Err ?sdk ?v with _ => _ end] =>
      destruct (validate.Value_Err sdk v) eqn:?
  | context [if negb (validate.Value_Exists ?sdk ?v) then _ else _] =>
      destruct (validate.Value_Exists sdk v) eqn:?
  | context [match validate.yaml_Extract ?sdk ?f ?c with _ => _ end] =>
      destruct (validate.yaml_Extract sdk f c) eqn:?
  | context [match validate.Value_Validate ?sdk ?v with _ => _ end] =>
      destruct (validate.Value_Validate sdk v) eqn:?
  end.

Ltac vsymex H :=
  unfold validate.ValidateGemaraArtifact, trigger in H;
  cbn [validate.runCue bind validate.answer negb] in H;
  repeat (vbranch H; cbn [validate.runCue bind validate.answer negb] in H).

(** *** One line of text, one diagnostic *)

Lemma has_byte_app (c : ascii) (s t : string) :
  has_byte c (s ++ t) = has_byte c s || has_byte c t.
Proof.
  induction s as [| a s IH]; simpl; [reflexivity |].
  rewrite IH, orb_assoc. reflexivity.
Qed.

(** [TrimLeft] returns a suffix. *)
Lemma TrimLeft_suffix (s : string) : exists p, s = p ++ strings.TrimLeft s.
Proof.
  induction s as [s IH] using string_length_ind.
  destruct s as [| a r1]; [exists ""; reflexivity |].
  cbn [strings.TrimLeft].
  destruct (strings.asciiSpace a).
  { destruct (IH r1) as [p Hp]; [simpl; lia |].
    exists (String a p). simpl. rewrite <- Hp. reflexivity. }
  destruct r1 as [| b r2]; [exists ""; reflexivity |].
  destruct (strings.space2 a b).
  { destruct (IH r2) as [p Hp]; [simpl; lia |].
    exists (String a (String b p)). simpl. rewrite <- Hp. reflexivity. }
  destruct r2 as [| c r3]; [exists ""; reflexivity |].
  destruct (strings.space3 a b c).
  { destruct (IH r3) as [p Hp]; [simpl; lia |].
    exists (String a (String b (String c p))). simpl. rewrite <- Hp. reflexivity. }
  exists "". reflexivity.
Qed.

(** [TrimSpace] adds no byte to a string. *)
Lemma TrimSpace_no_byte (c : ascii) (s : string) :
  has_byte c s = false -> has_byte c (strings.TrimSpace s) = false.
Proof.
  unfold strings.TrimSpace. intros H.
  destruct (TrimLeft_suffix s) as [p Hp].
  destruct (TrimRight_prefix (strings.TrimLeft s)) as [q Hq].
  rewrite Hp, Hq, !has_byte_app in H.
  apply orb_false_iff in H. destruct H as [_ H].
  apply orb_false_iff in H. tauto.
Qed.

Lemma Split_single (s : string) (sep : ascii) :
  has_byte sep s = false -> strings.Split s sep = [s].
Proof.
  induction s as [| c s IH]; simpl; [reflexivity |].
  intros H. apply orb_false_iff in H. destruct H as [Hc Hs].
  rewrite Hc, (IH Hs). reflexivity.
Qed.

(** An error text of one line gives one diagnostic, or none when blank. *)
Lemma nonblank_lines_single (errorOutput : string) :
  has_byte LF errorOutput = false ->
  nonblank_lines errorOutput
  = if strings.isEmpty (strings.TrimSpace errorOutput) then []
    else [strings.TrimSpace errorOutput].
Proof.
  intros H. unfold nonblank_lines.
  rewrite (Split_single _ _ (TrimSpace_no_byte LF errorOutput H)). cbn [filter].
  assert (Hidem : strings.TrimSpace (strings.TrimSpace errorOutput) = ""
                  <-> strings.TrimSpace errorOutput = "").
  { split.
    - intros Hb. destruct (strings.TrimSpace errorOutput) as [| a r] eqn:HT;
        [reflexivity |]. exfalso.
      pose proof (TrimSpace_clean errorOutput) as Hclean. rewrite HT in Hclean.
      unfold strings.TrimSpace in Hb. rewrite (TrimLeft_unled _ Hclean) in Hb.
      revert Hb. apply TrimRight_nonempty; [discriminate | exact Hclean].
    - intros ->. reflexivity. }
  destruct (strings.isEmpty (strings.TrimSpace errorOutput)) eqn:He.
  - apply isEmpty_true in He. apply Hidem in He. rewrite He. reflexivity.
  - destruct (strings.isEmpty (strings.TrimSpace (strings.TrimSpace errorOutput))) eqn:He2.
    + apply isEmpty_true in He2. apply Hidem in He2.
      apply isEmpty_false in He. contradiction.
    + reflexivity.
Qed.

(** The value [validated] names is the one the run validates. *)
Lemma validated_logged (sdk : validate.Cue)
  (input : validate.InputValidateGemaraArtifact) (v : validate.cue_Value sdk) :
  validated sdk input = Some v ->
  In {| validate.call := validate.CValidate;
        validate.failure := validate.Value_Validate sdk v |}
     (snd (validate.runCue (validate.ValidateGemaraArtifact sdk input))).
Proof.
  unfold validated, entrypoint_of, normalized,
    validate.ValidateGemaraArtifact, trigger.
  destruct (strings.isEmpty (validate.ArtifactContent input)); [discriminate |].
  destruct (strings.isEmpty (validate.Definition_ input)); [discriminate |].
  cbn [validate.runCue bind validate.answer].
  destruct (validate.modconfig_NewRegistry sdk) as [reg | m]; [| discriminate].
  cbn [validate.runCue bind validate.answer].
  destruct (validate.load_Instances sdk [validate.gemaraModulePath] reg)
    as [| inst0 rest]; [discriminate |].
  cbn [validate.runCue bind validate.answer].
  destruct (validate.Instance_Err sdk inst0); [discriminate |].
  cbn [validate.runCue bind validate.answer].
  destruct (validate.Value_Err sdk
              (validate.Context_BuildInstance sdk (validate.cuecontext_New sdk) inst0));
    [discriminate |].
  cbn [validate.runCue bind validate.answer].
  destruct (validate.Value_Exists sdk _); [| discriminate].
  cbn [validate.runCue bind validate.answer negb].
  destruct (validate.yaml_Extract sdk "artifact.yaml" (validate.ArtifactContent input))
    as [yamlFile | m]; [| discriminate].
  cbn [validate.runCue bind validate.answer].
  destruct (validate.Value_Err sdk
              (validate.Context_BuildFile sdk (validate.cuecontext_New sdk) yamlFile));
    [discriminate |].
  intros H. inversion H; subst; clear H.
  cbn [validate.runCue bind validate.answer].
  destruct (validate.Value_Validate sdk _);
    cbn [validate.runCue bind validate.answer snd]; do 8 right; left; reflexivity.
Qed.

(** C10, as the code has it.  In an outcome the validator returns as a
    function success, [valid=true] comes with no errors.  When the schema
    engine rejects the document, the errors are the lines of the engine's
    error text, trimmed as a whole, that are not blank, in order: there is
    at least one when the text is not blank, and the trimmed text alone when
    the text is one line, however many violations it stands for.  Errors are
    empty only when the outcome is valid or the engine's text is blank; a
    parse or build failure carries exactly one diagnostic. *)
Theorem errors_are_text_lines (sdk : validate.Cue)
  (input : validate.InputValidateGemaraArtifact)
  (out : validate.OutputValidateGemaraArtifact) (log : list validate.Activity) :
  validate.runCue (validate.ValidateGemaraArtifact sdk input) = (Ok out, log) ->
  (validate.Valid out = true -> validate.Errors out = [])
  /\ (validate.Errors out = [] ->
      validate.Valid out = true
      \/ exists errorOutput,
          In {| validate.call := validate.CValidate;
                validate.failure := Some errorOutput |} log
          /\ strings.TrimSpace errorOutput = "")
  /\ (forall errorOutput,
         In {| validate.call := validate.CValidate;
               validate.failure := Some errorOutput |} log ->
         validate.Valid out = false
         /\ validate.Message out = "Validation failed: " ++ errorOutput
         /\ validate.Errors out = nonblank_lines errorOutput
         /\ (strings.TrimSpace errorOutput <> "" -> validate.Errors out <> [])
         /\ (has_byte LF errorOutput = false ->
             validate.Errors out
             = if strings.isEmpty (strings.TrimSpace errorOutput) then []
               else [strings.TrimSpace errorOutput]))
  /\ (validate.Valid out = false ->
      (forall errorOutput,
          ~ In {| validate.call := validate.CValidate;
                  validate.failure := Some errorOutput |} log) ->
      exists diagnostic, validate.Errors out = [diagnostic]).
Proof.
  intros Hrun. vsymex Hrun; try discriminate Hrun;
    inversion Hrun; subst; clear Hrun;
    cbn [validate.Errors validate.Valid validate.Message].
  - (* the document does not build *)
    split; [intros H; discriminate H |].
    split; [intros H; discriminate H |].
    split; [| intros _ _; eexists; reflexivity].
    intros errorOutput Hin. simpl in Hin.
    repeat (destruct Hin as [Hin | Hin]; [discriminate Hin |]). contradiction.
  - (* the schema rejects the document *)
    match goal with
    | Hv : validate.Value_Validate sdk _ = Some ?e |- _ => rename e into text
    end.
    fold (nonblank_lines text).
    split; [intros H; discriminate H |].
    split; [| split].
    + intros Hempty. right. exists text.
      split; [simpl; do 8 right; left; reflexivity |].
      destruct (strings.TrimSpace text) eqn:HT; [reflexivity |].
      exfalso. apply (nonblank_lines_nonempty text); [rewrite HT; discriminate |].
      exact Hempty.
    + intros errorOutput Hin. simpl in Hin.
      repeat (destruct Hin as [Hin | Hin]; [try discriminate Hin |]);
        [| contradiction].
      inversion Hin; subst.
      repeat split.
      * apply nonblank_lines_nonempty.
      * intros Hone. apply (nonblank_lines_single _ Hone).
    + intros _ Hnone. exfalso. apply (Hnone text).
      simpl. do 8 right. left. reflexivity.
  - (* the document is valid *)
    split; [reflexivity |].
    split; [intros _; left; reflexivity |].
    split; [| intros H; discriminate H].
    intros errorOutput Hin. simpl in Hin.
    repeat (destruct Hin as [Hin | Hin]; [discriminate Hin |]). contradiction.
  - (* the document does not parse *)
    split; [intros H; discriminate H |].
    split; [intros H; discriminate H |].
    split; [| intros _ _; eexists; reflexivity].
    intros errorOutput Hin. simpl in Hin.
    repeat (destruct Hin as [Hin | Hin]; [discriminate Hin |]). contradiction.
Qed.

(** Three violations in the manifest of the test table, one diagnostic. *)
Lemma errors_are_text_lines_witness :
  let errorOutput := errors_Error Fixtures.three_violations in
  let out :=
    {| validate.Valid := false;
       validate.Errors :=
         ["#ControlCatalog.apiVersion: field not allowed (and 2 more errors)"];
       validate.Message := "Validation failed: " ++ errorOutput |} in
  validate.Valid out = false
  /\ validate.Message out = "Validation failed: " ++ errorOutput
  /\ validate.Errors out = nonblank_lines errorOutput.
Proof.
  cbv zeta.
  destruct (errors_are_text_lines Fixtures.listCue
              {| validate.ArtifactContent := Fixtures.manifest;
                 validate.Definition_ := "#ControlCatalog" |}
              {| validate.Valid := false;
                 validate.Errors :=
                   ["#ControlCatalog.apiVersion: field not allowed (and 2 more errors)"];
                 validate.Message :=
                   "Validation failed: " ++ errors_Error Fixtures.three_violations |}
              _ eq_refl) as [_ [_ [H _]]].
  destruct (H (errors_Error Fixtures.three_violations)) as [H1 [H2 [H3 _]]].
  - vm_compute. do 8 right. left. reflexivity.
  - repeat split; assumption.
Defined.

(** C10, as stated, fails.  The schema finds three violations in the
    manifest; the SDK renders them as one line, the first and "(and 2 more
    errors)", and that line is the one diagnostic of the outcome. *)
Lemma several_violations_one_diagnostic :
  ~ LinePerViolation Fixtures.listCue (fun _ => Fixtures.three_violations).
Proof.
  intros H.
  specialize (H {| validate.ArtifactContent := Fixtures.manifest;
                   validate.Definition_ := "#ControlCatalog" |}
                {| validate.Valid := false;
                   validate.Errors :=
                     ["#ControlCatalog.apiVersion: field not allowed (and 2 more errors)"];
                   validate.Message :=
                     "Validation failed: " ++ errors_Error Fixtures.three_violations |}
                _ (Fixtures.Unified "#ControlCatalog" Fixtures.manifest)
                eq_refl eq_refl eq_refl).
  simpl in H. assert (Hlen : 1%nat = 3%nat).
  { apply H.
    - intros line [<- | [<- | [<- | []]]]; split; vm_compute;
        solve [reflexivity | discriminate].
    - discriminate. }
  discriminate Hlen.
Qed.

(** ** Malformed documents *)

Lemma Contains_YAML (e : string) :
  strings.Contains ("Validation failed: invalid YAML: " ++ e) "YAML" = true.
Proof. simpl. rewrite ?orb_true_r. reflexivity. Qed.

(** C6, as the code has it.  For a document text that is not empty and does
    not parse, and a definition name that is not empty and resolves in the
    schema loaded from the registry, the validator returns a function
    success: [valid] is false, the errors hold the one parse diagnostic, and
    the message names YAML.  When the schema side does not resolve, the call
    is a function error, whether or not the document parses. *)
Theorem malformed_document_is_result (sdk : validate.Cue)
  (input : validate.InputValidateGemaraArtifact) :
  validate.ArtifactContent input <> "" ->
  validate.Definition_ input <> "" ->
  (SchemaResolves sdk (validate.Definition_ input) ->
   forall e,
     validate.yaml_Extract sdk "artifact.yaml" (validate.ArtifactContent input) = Err e ->
     fst (validate.runCue (validate.ValidateGemaraArtifact sdk input))
     = Ok {| validate.Valid := false;
             validate.Errors := ["Failed to parse YAML: " ++ e];
             validate.Message := "Validation failed: invalid YAML: " ++ e |}
     /\ strings.Contains ("Validation failed: invalid YAML: " ++ e) "YAML" = true)
  /\ (~ SchemaResolves sdk (validate.Definition_ input) ->
      isErr (fst (validate.runCue (validate.ValidateGemaraArtifact sdk input))) = true).
Proof.
  intros Hc Hd.
  apply isEmpty_false in Hc. apply isEmpty_false in Hd.
  unfold validate.ValidateGemaraArtifact, trigger. rewrite Hc, Hd.
  cbn [validate.runCue bind validate.answer].
  split.
  - intros [reg [inst [rest [Hreg [Hload [Hinst [Hschema Hexists]]]]]]] e He.
    unfold entrypoint_of, normalized in Hexists.
    rewrite Hreg. cbn [validate.runCue bind validate.answer].
    rewrite Hload. cbn [validate.runCue bind validate.answer].
    rewrite Hinst. cbn [validate.runCue bind validate.answer].
    rewrite Hschema. cbn [validate.runCue bind validate.answer].
    rewrite Hexists. cbn [validate.runCue bind validate.answer negb].
    rewrite He. cbn [validate.runCue bind validate.answer fst].
    split; [reflexivity | apply Contains_YAML].
  - intros Hno.
    destruct (validate.modconfig_NewRegistry sdk) as [reg | m] eqn:Hreg;
      cbn [validate.runCue bind validate.answer]; [| reflexivity].
    destruct (validate.load_Instances sdk [validate.gemaraModulePath] reg)
      as [| inst rest] eqn:Hload;
      cbn [validate.runCue bind validate.answer]; [reflexivity |].
    destruct (validate.Instance_Err sdk inst) as [m |] eqn:Hinst;
      cbn [validate.runCue bind validate.answer]; [reflexivity |].
    destruct (validate.Value_Err sdk _) as [m |] eqn:Hschema;
      cbn [validate.runCue bind validate.answer]; [reflexivity |].
    destruct (validate.Value_Exists sdk _) eqn:Hexists;
      cbn [validate.runCue bind validate.answer negb]; [| reflexivity].
    exfalso. apply Hno. exists reg, inst, rest. repeat split; assumption.
Qed.

Lemma toyCue_resolves : SchemaResolves Fixtures.toyCue "#ControlCatalog".
Proof. exists tt, tt, []. repeat split. Qed.

(** The malformed document of the test table against ControlCatalog. *)
Lemma malformed_document_is_result_witness :
  fst (validate.runCue
         (validate.ValidateGemaraArtifact Fixtures.toyCue
            {| validate.ArtifactContent := "invalid: yaml: [unclosed";
               validate.Definition_ := "#ControlCatalog" |}))
  = Ok {| validate.Valid := false;
          validate.Errors :=
            ["Failed to parse YAML: artifact.yaml:1: did not find expected ',' or ']'"];
          validate.Message :=
            "Validation failed: invalid YAML: artifact.yaml:1: did not find expected ',' or ']'" |}.
Proof.
  refine (proj1 (proj1 (malformed_document_is_result Fixtures.toyCue
                          {| validate.ArtifactContent := "invalid: yaml: [unclosed";
                             validate.Definition_ := "#ControlCatalog" |}
                          _ _) toyCue_resolves
                   "artifact.yaml:1: did not find expected ',' or ']'" _)).
  - discriminate.
  - discriminate.
  - vm_compute. reflexivity.
Defined.

(** C6, as stated, fails: a definition name that is not in the schema is a
    function error, also when the document is malformed; the definition is
    looked up before the document is parsed. *)
Lemma malformed_document_unknown_definition : ~ MalformedIsResult Fixtures.toyCue.
Proof.
  intros H.
  destruct (H {| validate.ArtifactContent := "invalid: yaml: [unclosed";
                 validate.Definition_ := "Nope" |}) as [out [Hout _]].
  - discriminate.
  - vm_compute. reflexivity.
  - vm_compute in Hout. discriminate Hout.
Qed.

Example malformed_document_offline :
  validate.runCue
    (validate.ValidateGemaraArtifact Fixtures.offlineCue
       {| validate.ArtifactContent := "invalid: yaml: [unclosed";
          validate.Definition_ := "#ControlCatalog" |})
  = (Err "failed to create CUE registry: registry unreachable",
     [ {| validate.call := validate.CNewRegistry;
          validate.failure := Some "registry unreachable" |} ]).
Proof. reflexivity. Qed.

(** * Further properties *)

(** ** The test helper *)

(** X1. [getLexiconWithURL] reports where its entries came from.  A result
    with [cached=true] was served from the cache: no request was made, the
    cache is untouched, and a refresh was not asked for.  A result with
    [cached=false] was fetched from the given URL by the one request of the
    call, and is what the cache now holds.  The source is the URL given. *)
Theorem helper_flag_tells_fetch {codec : Codec} (env : Env) (w : World)
  (input : InputGetLexicon) (url : string) (out : OutputGetLexicon) :
  fst (run env (getLexiconWithURL input url) w) = Ok out ->
  let w' := snd (run env (getLexiconWithURL input url) w) in
  Source out = url
  /\ (Cached out = true ->
      Refresh input = false
      /\ requests w' = requests w
      /\ cached w' = cached w
      /\ Entries out = lexiconCache w)
  /\ (Cached out = false ->
      requests w' = S (requests w)
      /\ fetched (remote env url (requests w)) = Ok (Entries out)
      /\ lexiconCache w' = Entries out
      /\ exists n, (ticks w <= n < ticks w')%nat
                   /\ lexiconCacheTime w' = clock env n).
Proof.
  cbv zeta. rewrite getLexiconWithURL_run. cbv zeta.
  destruct (negb (Refresh input) && cacheFresh _ _ _) eqn:Hhit; simpl.
  - intros H; inversion H; subst; clear H; simpl.
    apply andb_prop in Hhit. destruct Hhit as [Hr _].
    apply negb_true_iff in Hr.
    repeat split; try discriminate; auto.
  - destruct (fetched _) as [entries | e] eqn:Hf; simpl; [| discriminate].
    intros H; inversion H; subst; clear H; simpl.
    repeat split; try discriminate; auto.
    destruct (negb (Refresh input) && negb (time.IsZero (lexiconCacheTime w))).
    + exists (S (ticks w)). split; [lia | reflexivity].
    + exists (ticks w). split; [lia | reflexivity].
Qed.

(** The first call of the test "cache hit on second call". *)
Lemma helper_flag_tells_fetch_witness :
  requests (snd (run Fixtures.serving
                   (getLexiconWithURL (codec:=Fixtures.lineCodec)
                      {| Refresh := false |} "http://127.0.0.1:1") start))
  = 1%nat.
Proof.
  refine (proj1 (proj2 (proj2
            (@helper_flag_tells_fetch Fixtures.lineCodec Fixtures.serving start
               {| Refresh := false |} "http://127.0.0.1:1"
               {| Entries := [Fixtures.assessment; Fixtures.control];
                  Source := "http://127.0.0.1:1";
                  Cached := false |} _)) _)).
  - vm_compute. reflexivity.
  - reflexivity.
Defined.

(** ** Errors of a fetch *)

(** X2. The same failure of the remote comes back under three different
    messages: a forced refresh and the test helper return the error of the
    fetch as it is, the resource read wraps it once, and the direct query,
    which goes through the resource read, wraps it twice. *)
Theorem fetch_error_wrapping {codec : Codec} (env : Env) (w : World) (e : error) :
  upcoming env w = Err e ->
  fst (run env (GetLexicon {| Refresh := true |}) w) = Err e
  /\ fst (run env (getLexiconWithURL {| Refresh := true |} lexiconURL) w) = Err e
  /\ (forall req,
         requests (snd (run env (HandleLexiconResource req) w)) <> requests w ->
         fst (run env (HandleLexiconResource req) w)
         = Err ("failed to fetch lexicon: " ++ e))
  /\ (requests (snd (run env (GetLexicon {| Refresh := false |}) w)) <> requests w ->
      fst (run env (GetLexicon {| Refresh := false |}) w)
      = Err ("failed to read lexicon resource: " ++ "failed to fetch lexicon: " ++ e)).
Proof.
  intros Hup.
  assert (Hres : forall req,
             requests (snd (run env (HandleLexiconResource req) w)) <> requests w ->
             fst (run env (HandleLexiconResource req) w)
             = Err ("failed to fetch lexicon: " ++ e)).
  { intros req. rewrite HandleLexiconResource_run, Hup.
    destruct (_ || _); [| destruct (_ <=? _)]; simpl; intros Hreq; auto.
    contradiction Hreq. reflexivity. }
  repeat split.
  - rewrite GetLexicon_refresh_run, Hup. reflexivity.
  - rewrite getLexiconWithURL_run. cbv zeta. simpl.
    unfold upcoming in Hup. rewrite Hup. reflexivity.
  - exact Hres.
  - rewrite GetLexicon_query_run. cbv zeta.
    specialize (Hres {| mcp.Params_URI := lexiconResourceURI |}).
    destruct (run env (HandleLexiconResource _) w) as [r w1]. simpl in *.
    intros Hreq.
    assert (Hw1 : requests w1 <> requests w).
    { destruct r as [result | m]; simpl in Hreq; [| exact Hreq].
      destruct (mcp.Contents result) as [| c0 rest]; [exact Hreq |].
      destruct (json_Unmarshal (mcp.Text c0)); [| exact Hreq].
      simpl in Hreq. destruct (time.IsZero (lexiconCacheTime w1)); exact Hreq. }
    rewrite (Hres Hw1). reflexivity.
Qed.

(** The server error of the test "HTTP error returns error", on the three
    paths. *)
Lemma fetch_error_wrapping_witness :
  let codec := Fixtures.lineCodec in
  fst (run Fixtures.failing (GetLexicon {| Refresh := true |}) start)
  = Err "unexpected status code: 500"
  /\ fst (run Fixtures.failing
            (HandleLexiconResource {| mcp.Params_URI := "" |}) start)
     = Err "failed to fetch lexicon: unexpected status code: 500"
  /\ fst (run Fixtures.failing (GetLexicon {| Refresh := false |}) start)
     = Err "failed to read lexicon resource: failed to fetch lexicon: unexpected status code: 500".
Proof.
  cbv zeta.
  destruct (@fetch_error_wrapping Fixtures.lineCodec Fixtures.failing start
              "unexpected status code: 500" eq_refl) as [H1 [_ [H3 H4]]].
  split; [exact H1 |]. split.
  - apply H3. vm_compute. discriminate.
  - apply H4. vm_compute. discriminate.
Defined.

Lemma itoa_inj (n m : Z) : strings.itoa n = strings.itoa m -> n = m.
Proof.
  unfold strings.itoa. intros H.
  apply DecimalZ.to_int_inj.
  assert (Hnn : forall z, Z.to_int z <> Decimal.Pos Decimal.Nil
                          /\ Z.to_int z <> Decimal.Neg Decimal.Nil).
  { intros z. destruct z as [| p | p]; simpl; split; try discriminate;
      intros Hp; inversion Hp as [Hq];
      apply (DecimalPos.Unsigned.to_uint_nonnil p); exact Hq. }
  destruct (Hnn n) as [Hn1 Hn2]. destruct (Hnn m) as [Hm1 Hm2].
  pose proof (NilZero.isi (Z.to_int n) Hn1 Hn2) as Hn.
  pose proof (NilZero.isi (Z.to_int m) Hm1 Hm2) as Hm.
  rewrite H in Hn. rewrite Hn in Hm. inversion Hm. reflexivity.
Qed.

Lemma fetched_failure {codec : Codec} (resp : http.Exchange) :
  match failure resp with
  | None => exists entries, fetched resp = Ok entries
  | Some RequestConstruction =>
      exists m, fetched resp = Err ("failed to create request: " ++ m)
  | Some Transport =>
      exists m, fetched resp = Err ("failed to fetch lexicon: " ++ m)
  | Some (Status code) =>
      code <> http.StatusOK
      /\ fetched resp = Err ("unexpected status code: " ++ strings.itoa code)
  | Some BodyRead =>
      exists m, fetched resp = Err ("failed to read response body: " ++ m)
  | Some Decode =>
      exists m, fetched resp = Err ("failed to parse YAML: " ++ m)
  end.
Proof.
  unfold failure, fetched. destruct resp as [m | m | code body]; eauto.
  destruct (Z.eqb_spec code http.StatusOK) as [-> | Hne]; simpl.
  - destruct body as [b | m]; eauto.
    destruct (yaml_Unmarshal b); eauto.
  - split; [assumption | reflexivity].
Qed.

(** X3. The message of a failed fetch tells how the fetch failed: two
    exchanges that fail with the same message failed in the same of the five
    ways (request construction, transport, status, reading the body,
    decoding it), and with the same status code when the status was the
    cause. *)
Theorem fetch_message_tells_failure {codec : Codec}
  (r1 r2 : http.Exchange) (e : error) :
  fetched r1 = Err e ->
  fetched r2 = Err e ->
  failure r1 = failure r2 /\ failure r1 <> None.
Proof.
  intros H1 H2.
  pose proof (fetched_failure r1) as F1. pose proof (fetched_failure r2) as F2.
  destruct (failure r1) as [[| | c1 | |] |];
    destruct (failure r2) as [[| | c2 | |] |];
    repeat match goal with
           | H : exists _, _ |- _ => destruct H
           | H : _ /\ _ |- _ => destruct H
           end;
    try congruence;
    try (split; [reflexivity | discriminate]);
    try (exfalso;
         match goal with
         | Ha : fetched r1 = Err ?a, Hb : fetched r2 = Err ?b |- _ =>
             assert (Hab : a = b) by congruence; simpl in Hab; discriminate Hab
         end).
  split; [| discriminate].
  assert (Hab : "unexpected status code: " ++ strings.itoa c1
                = "unexpected status code: " ++ strings.itoa c2) by congruence.
  simpl in Hab. inversion Hab as [Hi]. apply itoa_inj in Hi. subst. reflexivity.
Qed.

(** Two server errors with the same message have the same status. *)
Lemma fetch_message_tells_failure_witness :
  failure (codec:=Fixtures.lineCodec) (http.Response 500 (Ok ""))
  = failure (codec:=Fixtures.lineCodec) (http.Response 500 (Err "reset")).
Proof.
  apply (@fetch_message_tells_failure Fixtures.lineCodec
           (http.Response 500 (Ok "")) (http.Response 500 (Err "reset"))
           "unexpected status code: 500"); reflexivity.
Defined.

(** Success is status 200 alone: any other 2xx status is an error too. *)
Example status_204_is_an_error :
  fetched (codec:=Fixtures.lineCodec)
    (http.Response 204 (Ok (Fixtures.encode [Fixtures.test])))
  = Err "unexpected status code: 204".
Proof. reflexivity. Qed.

(** ** What a call costs *)

Lemma HandleLexiconResource_frugal {codec : Codec} (env : Env) (w : World)
  (req : mcp.ReadResourceRequest) :
  let w' := snd (run env (HandleLexiconResource req) w) in
  (requests w <= requests w' <= S (requests w))%nat
  /\ (ticks w <= ticks w' <= ticks w + 2)%nat
  /\ (requests w' = requests w -> cached w' = cached w).
Proof.
  cbv zeta. rewrite HandleLexiconResource_run.
  destruct (_ || _); [| destruct (_ <=? _)];
    try destruct (upcoming env w); simpl; repeat split; try lia; auto;
    intros Hn; exfalso; lia.
Qed.

Lemma GetLexicon_frugal {codec : Codec} (env : Env) (w : World)
  (input : InputGetLexicon) :
  Frugal w (snd (run env (GetLexicon input) w)).
Proof.
  unfold Frugal. destruct input as [[|]].
  - rewrite GetLexicon_refresh_run.
    destruct (upcoming env w); simpl; repeat split; try lia; auto;
      intros Hn; exfalso; lia.
  - rewrite GetLexicon_query_run. cbv zeta.
    pose proof (HandleLexiconResource_frugal env w
                  {| mcp.Params_URI := lexiconResourceURI |}) as Hres.
    cbv zeta in Hres.
    destruct (run env (HandleLexiconResource _) w) as [r w1]. simpl in *.
    destruct Hres as [Hr [Ht Hc]].
    assert (Hgoal : forall w2, requests w2 = requests w1 -> cached w2 = cached w1 ->
                               (ticks w1 <= ticks w2 <= S (ticks w1))%nat ->
                               (requests w <= requests w2 <= S (requests w))%nat
                               /\ (ticks w <= ticks w2 <= ticks w + 3)%nat
                               /\ (requests w2 = requests w -> cached w2 = cached w)).
    { intros w2 H2r H2c H2t. rewrite H2r, H2c. repeat split; try lia. exact Hc. }
    destruct r as [result | m]; simpl; [| apply Hgoal; auto; lia].
    destruct (mcp.Contents result) as [| c0 rest]; simpl; [apply Hgoal; auto; lia |].
    destruct (json_Unmarshal (mcp.Text c0)); simpl; [| apply Hgoal; auto; lia].
    destruct (time.IsZero (lexiconCacheTime w1)); apply Hgoal; simpl; auto; lia.
Qed.

Lemma getLexiconWithURL_frugal {codec : Codec} (env : Env) (w : World)
  (input : InputGetLexicon) (url : string) :
  Frugal w (snd (run env (getLexiconWithURL input url) w)).
Proof.
  unfold Frugal. rewrite getLexiconWithURL_run. cbv zeta.
  destruct (negb (Refresh input) && cacheFresh _ _ _);
    [| destruct (fetched _)];
    destruct (negb (Refresh input) && negb (time.IsZero (lexiconCacheTime w)));
    simpl; repeat split; try lia; auto; intros Hn; exfalso; lia.
Qed.

(** X4. No entry point retries: a call makes at most one request and reads
    the clock at most three times, and a call that makes no request leaves
    the cache as it found it. *)
Theorem at_most_one_request {codec : Codec} (env : Env) (w : World) :
  (forall input, Frugal w (snd (run env (GetLexicon input) w)))
  /\ (forall input url, Frugal w (snd (run env (getLexiconWithURL input url) w)))
  /\ (forall req, Frugal w (snd (run env (HandleLexiconResource req) w))).
Proof.
  split; [| split].
  - intros input. apply GetLexicon_frugal.
  - intros input url. apply getLexiconWithURL_frugal.
  - intros req.
    destruct (HandleLexiconResource_frugal env w req) as [Hr [Ht Hc]].
    unfold Frugal. repeat split; try lia. exact Hc.
Qed.

(** ** Sessions *)

Lemma serve_world {codec : Codec} (env : Env) (r : Request) (w : World) :
  snd (run env (serve r) w)
  = match r with
    | ToolCall input => snd (run env (GetLexicon input) w)
    | ResourceRead req => snd (run env (HandleLexiconResource req) w)
    end.
Proof.
  destruct r; simpl; unfold callGetLexicon, callHandleLexiconResource;
    rewrite run_bind; reflexivity.
Qed.

Lemma Provenance_refl {codec : Codec} (env : Env) (w : World) : Provenance env w w.
Proof. left. reflexivity. Qed.

Lemma Provenance_trans {codec : Codec} (env : Env) (w0 w1 w2 : World) :
  (ticks w0 <= ticks w1)%nat -> (requests w0 <= requests w1)%nat ->
  (ticks w1 <= ticks w2)%nat -> (requests w1 <= requests w2)%nat ->
  Provenance env w0 w1 -> Provenance env w1 w2 -> Provenance env w0 w2.
Proof.
  intros Ht01 Hr01 Ht12 Hr12 H01 [H12 | [k [n [Hk [Hn [Hf Hc]]]]]].
  - destruct H01 as [H01 | [k [n [Hk [Hn [Hf Hc]]]]]].
    + left. congruence.
    + right. exists k, n. unfold cached in H12. inversion H12 as [[He Htm]].
      repeat split; try lia; congruence.
  - right. exists k, n. repeat split; try lia; assumption.
Qed.

Lemma serve_provenance {codec : Codec} (env : Env) (r : Request) (w : World) :
  Provenance env w (snd (run env (serve r) w)).
Proof.
  rewrite serve_world.
  assert (H : forall w', PairedUpdate env w w' -> Frugal w w' -> Provenance env w w').
  { intros w' [Hc | [entries [n [Hup [Hn Hc]]]]] [Hr [Ht Hsame]].
    - left. exact Hc.
    - destruct (Nat.eq_dec (requests w') (requests w)) as [Heq | Hne].
      + left. apply Hsame. exact Heq.
      + right. exists (requests w), n. unfold cached in Hc. inversion Hc; subst.
        repeat split; try lia. exact Hup. }
  destruct r as [input | req]; apply H.
  - apply GetLexicon_paired.
  - apply GetLexicon_frugal.
  - apply HandleLexiconResource_paired.
  - destruct (HandleLexiconResource_frugal env w req) as [Hr [Ht Hc]].
    unfold Frugal. repeat split; try lia. exact Hc.
Qed.

Lemma session_monotone {codec : Codec} (env : Env) (rs : list Request) (w : World) :
  (ticks w <= ticks (snd (session env rs w)))%nat
  /\ (requests w <= requests (snd (session env rs w)))%nat.
Proof.
  revert w. induction rs as [| r rest IH]; intros w; simpl.
  - split; apply Nat.le_refl.
  - destruct (run env (serve r) w) as [reply w1] eqn:Hr.
    pose proof (run_monotone env (serve r) w) as Hm. rewrite Hr in Hm. simpl in Hm.
    specialize (IH w1). destruct (session env rest w1) as [replies w2]. simpl in *.
    lia.
Qed.

(** X5. However many requests the server has answered one after the other,
    the cache is as it was at the start, or it holds exactly the entries
    that one of these requests fetched from the lexicon URL with success,
    stamped with a clock reading taken since: nothing else is ever written
    to it.  Every request is answered. *)
Theorem session_provenance {codec : Codec} (env : Env) (rs : list Request) (w : World) :
  Provenance env w (snd (session env rs w))
  /\ List.length (fst (session env rs w)) = List.length rs.
Proof.
  revert w. induction rs as [| r rest IH]; intros w; simpl.
  - split; [apply Provenance_refl | reflexivity].
  - pose proof (serve_provenance env r w) as Hp.
    pose proof (run_monotone env (serve r) w) as Hm.
    destruct (run env (serve r) w) as [reply w1]. simpl in Hp, Hm.
    pose proof (session_monotone env rest w1) as Hm'.
    destruct (IH w1) as [IHp IHl].
    destruct (session env rest w1) as [replies w2]. simpl in *.
    split; [| rewrite IHl; reflexivity].
    eapply Provenance_trans; try eassumption; lia.
Qed.

Example session_of_three :
  let codec := Fixtures.lineCodec in
  let s := session Fixtures.changing
             [ResourceRead {| mcp.Params_URI := LexiconResourceURIAlias |};
              ToolCall {| Refresh := true |};
              ToolCall {| Refresh := false |}] start in
  cached (snd s) = ([Fixtures.assessment; Fixtures.control], Fixtures.tick 1)
  /\ requests (snd s) = 2%nat.
Proof. vm_compute. split; reflexivity. Qed.

(** ** The empty lexicon *)

(** X6. The resource read never serves an empty cache: with no entries
    cached it makes a request whatever the timestamp says, and so does the
    direct query that goes through it; a remote whose lexicon is empty is
    asked again by every read.  The test helper does not look at the
    entries: it serves the empty cache while the timestamp is fresh. *)
Theorem empty_lexicon_not_cached {codec : Codec} (env : Env) (w : World) :
  lexiconCache w = [] ->
  (forall req, requests (snd (run env (HandleLexiconResource req) w)) = S (requests w))
  /\ requests (snd (run env (GetLexicon {| Refresh := false |}) w)) = S (requests w)
  /\ (forall req req',
         upcoming env w = Ok [] ->
         requests (snd (run env (HandleLexiconResource req')
                          (snd (run env (HandleLexiconResource req) w))))
         = S (S (requests w)))
  /\ (forall url,
         cacheFresh lexiconCacheTTL (lexiconCacheTime w) (clock env (ticks w)) = true ->
         run env (getLexiconWithURL {| Refresh := false |} url) w
         = (Ok {| Entries := []; Source := url; Cached := true |},
            {| lexiconCache := []; lexiconCacheTime := lexiconCacheTime w;
               ticks := S (ticks w); requests := requests w |})).
Proof.
  intros Hempty.
  assert (Hres : forall req w0, lexiconCache w0 = [] ->
                   requests (snd (run env (HandleLexiconResource req) w0))
                   = S (requests w0)).
  { intros req w0 H0. rewrite HandleLexiconResource_run, H0. simpl.
    destruct (upcoming env w0); reflexivity. }
  split; [intros req; apply Hres; exact Hempty |].
  split; [| split].
  - rewrite GetLexicon_query_run. cbv zeta.
    specialize (Hres {| mcp.Params_URI := lexiconResourceURI |} w Hempty).
    destruct (run env (HandleLexiconResource _) w) as [r w1]. simpl in *.
    destruct r as [result | m]; simpl; [| exact Hres].
    destruct (mcp.Contents result) as [| c0 rest]; [exact Hres |].
    destruct (json_Unmarshal (mcp.Text c0)); [| exact Hres].
    simpl. destruct (time.IsZero (lexiconCacheTime w1)); exact Hres.
  - intros req req' Hup.
    rewrite (Hres req').
    + rewrite (Hres req w Hempty). reflexivity.
    + rewrite HandleLexiconResource_run, Hempty, Hup. reflexivity.
  - intros url Hfresh. rewrite getLexiconWithURL_run. cbv zeta. simpl.
    rewrite Hfresh, Hempty.
    unfold cacheFresh in Hfresh. apply andb_prop in Hfresh.
    destruct Hfresh as [Hz _]. rewrite Hz. reflexivity.
Qed.

(** The first read of a process: the cache is empty. *)
Lemma empty_lexicon_not_cached_witness :
  requests (snd (run Fixtures.serving
                   (HandleLexiconResource (codec:=Fixtures.lineCodec)
                      {| mcp.Params_URI := "" |}) start))
  = 1%nat.
Proof.
  apply (@empty_lexicon_not_cached Fixtures.lineCodec Fixtures.serving start).
  reflexivity.
Defined.

(** ** Refresh, then query *)

(** X7. A direct query right after a successful refresh is answered from
    the cache: while the clock stays within 24 hours of the refresh, and the
    JSON encoding of the entries decodes to them again, it returns the
    entries the refresh fetched, with [cached=true], makes no request and
    leaves the cache as the refresh left it. *)
Theorem refresh_then_query {codec : Codec} (env : Env) (w : World)
  (entries : list LexiconEntry) (text : string) :
  upcoming env w = Ok entries ->
  entries <> [] ->
  json_Marshal entries = Ok text ->
  json_Unmarshal text = Ok entries ->
  cacheFresh lexiconCacheTTL (clock env (ticks w)) (clock env (S (ticks w))) = true ->
  cacheFresh lexiconCacheTTL (clock env (ticks w)) (clock env (S (S (ticks w)))) = true ->
  let w1 := snd (run env (GetLexicon {| Refresh := true |}) w) in
  let r := run env (GetLexicon {| Refresh := false |}) w1 in
  fst r = Ok {| Entries := entries; Source := lexiconURL; Cached := true |}
  /\ requests (snd r) = S (requests w)
  /\ cached (snd r) = (entries, clock env (ticks w)).
Proof.
  intros Hup Hne Hm Hu Hf1 Hf2. cbv zeta.
  rewrite GetLexicon_refresh_run, Hup. simpl snd.
  match goal with
  | |- context [run env _ ?w1] =>
      pose proof (query_served_from_cache env w1 text entries) as Hq
  end.
  simpl in Hq. rewrite Hf2 in Hq. apply Hq; assumption.
Qed.

(** The refresh and the query of a fresh process. *)
Lemma refresh_then_query_witness :
  let codec := Fixtures.lineCodec in
  let w1 := snd (run Fixtures.serving (GetLexicon {| Refresh := true |}) start) in
  fst (run Fixtures.serving (GetLexicon {| Refresh := false |}) w1)
  = Ok {| Entries := [Fixtures.assessment; Fixtures.control];
          Source := lexiconURL;
          Cached := true |}.
Proof.
  cbv zeta.
  apply (@refresh_then_query Fixtures.lineCodec Fixtures.serving start
           [Fixtures.assessment; Fixtures.control]
           (Fixtures.encode [Fixtures.assessment; Fixtures.control]));
    try (vm_compute; reflexivity).
  discriminate.
Defined.

(** ** The flag at the end of the 24 hours *)

(** X8. The flag of a direct query is read off the clock a second time,
    after the resource read has decided.  A cache that is still fresh when
    the resource read looks and 24 hours old when the flag is computed is
    served without any request, and reported with [cached=false]. *)
Theorem query_flag_false_without_fetch {codec : Codec} (env : Env) (w : World)
  (text : string) (decoded : list LexiconEntry) :
  lexiconCache w <> [] ->
  cacheFresh lexiconCacheTTL (lexiconCacheTime w) (clock env (ticks w)) = true ->
  cacheFresh lexiconCacheTTL (lexiconCacheTime w) (clock env (S (ticks w))) = false ->
  json_Marshal (lexiconCache w) = Ok text ->
  json_Unmarshal text = Ok decoded ->
  let r := run env (GetLexicon {| Refresh := false |}) w in
  fst r = Ok {| Entries := decoded; Source := lexiconURL; Cached := false |}
  /\ requests (snd r) = requests w
  /\ cached (snd r) = cached w.
Proof.
  intros Hne Hf1 Hf2 Hm Hu.
  pose proof (query_served_from_cache env w text decoded Hne Hf1 Hm Hu) as Hq.
  cbv zeta in Hq. rewrite Hf2 in Hq. exact Hq.
Qed.

Lemma query_flag_false_without_fetch_witness :
  let r := run Fixtures.serving
             (GetLexicon (codec:=Fixtures.lineCodec) {| Refresh := false |})
             Fixtures.expiring in
  fst r = Ok {| Entries := [Fixtures.test]; Source := lexiconURL; Cached := false |}
  /\ requests (snd r) = 0%nat.
Proof.
  cbv zeta.
  destruct (@query_flag_false_without_fetch Fixtures.lineCodec Fixtures.serving
              Fixtures.expiring (Fixtures.encode [Fixtures.test]) [Fixtures.test])
    as [H1 [H2 _]]; try (vm_compute; reflexivity).
  - discriminate.
  - split; [exact H1 | exact H2].
Defined.

(** ** Failures are not remembered *)

Lemma Sub_monotone (t t' u : time.Time) :
  t <= t' -> time.Sub t u <= time.Sub t' u.
Proof.
  intros Hle. unfold time.Sub, time.maxDuration, time.minDuration.
  destruct (Z.ltb_spec (2 ^ 63 - 1) (t - u));
    destruct (Z.ltb_spec (2 ^ 63 - 1) (t' - u));
    destruct (Z.ltb_spec (t - u) (- 2 ^ 63));
    destruct (Z.ltb_spec (t' - u) (- 2 ^ 63)); lia.
Qed.

(** Once stale, stale for good, as long as the clock does not go back. *)
Lemma cacheStale_persists (cache : list LexiconEntry) (fetchedAt now now' : time.Time) :
  now <= now' ->
  cacheStale cache fetchedAt now = true ->
  cacheStale cache fetchedAt now' = true.
Proof.
  intros Hle. unfold cacheStale.
  destruct (Nat.eqb (List.length cache) 0); [reflexivity |].
  destruct (time.IsZero fetchedAt); [reflexivity |]. simpl.
  rewrite !Z.leb_le. pose proof (Sub_monotone now now' fetchedAt Hle). lia.
Qed.

Lemma failed_read {codec : Codec} (env : Env) (w : World)
  (req : mcp.ReadResourceRequest) :
  isErr (upcoming env w) = true ->
  requests (snd (run env (HandleLexiconResource req) w)) = S (requests w) ->
  isErr (fst (run env (HandleLexiconResource req) w)) = true
  /\ cached (snd (run env (HandleLexiconResource req) w)) = cached w
  /\ (ticks (snd (run env (HandleLexiconResource req) w)) = ticks w
      \/ ticks (snd (run env (HandleLexiconResource req) w)) = S (ticks w)).
Proof.
  rewrite HandleLexiconResource_run.
  destruct (upcoming env w) as [entries | e]; [discriminate |]. intros _.
  destruct (_ || _); [| destruct (_ <=? _)]; simpl; intros Hreq; auto.
  exfalso. lia.
Qed.

(** X9. A read that finds the cache empty or expired and cannot fetch
    returns an error, not the expired entries, and remembers nothing of the
    failure: with a clock that does not go back, the next read makes a
    request again. *)
Theorem failed_read_is_retried {codec : Codec} (env : Env) (w : World)
  (req req' : mcp.ReadResourceRequest) :
  cacheStale (lexiconCache w) (lexiconCacheTime w) (clock env (ticks w)) = true ->
  isErr (upcoming env w) = true ->
  clock env (ticks w) <= clock env (S (ticks w)) ->
  let r := run env (HandleLexiconResource req) w in
  isErr (fst r) = true
  /\ requests (snd r) = S (requests w)
  /\ requests (snd (run env (HandleLexiconResource req') (snd r))) = S (S (requests w)).
Proof.
  intros Hstale Hfail Hclock. cbv zeta.
  pose proof (proj2 (HandleLexiconResource_stale env w req) Hstale) as Hreq.
  destruct (failed_read env w req Hfail Hreq) as [Herr [Hc Ht]].
  remember (snd (run env (HandleLexiconResource req) w)) as w1 eqn:Hw1.
  repeat split; try assumption.
  rewrite <- Hreq. apply HandleLexiconResource_stale.
  unfold cached in Hc.
  pose proof (f_equal fst Hc) as Hc1. pose proof (f_equal snd Hc) as Hc2.
  cbn [fst snd] in Hc1, Hc2. rewrite Hc1, Hc2.
  destruct Ht as [Ht | Ht]; rewrite Ht.
  - exact Hstale.
  - eapply cacheStale_persists; eassumption.
Qed.

(** Two reads of an expired cache against a failing remote. *)
Lemma failed_read_is_retried_witness :
  let codec := Fixtures.lineCodec in
  let r := run Fixtures.failing (HandleLexiconResource {| mcp.Params_URI := "" |})
               Fixtures.expired in
  requests (snd (run Fixtures.failing
                   (HandleLexiconResource {| mcp.Params_URI := LexiconResourceURIAlias |})
                   (snd r)))
  = 2%nat.
Proof.
  cbv zeta.
  apply (@failed_read_is_retried Fixtures.lineCodec Fixtures.failing Fixtures.expired
           {| mcp.Params_URI := "" |} {| mcp.Params_URI := LexiconResourceURIAlias |}).
  - vm_compute. reflexivity.
  - vm_compute. reflexivity.
  - vm_compute. discriminate.
Defined.

(** ** The order of the validator's calls *)

Ltac vstep :=
  match goal with
  | |- context [if strings.isEmpty ?s then _ else _] => destruct (strings.isEmpty s) eqn:?
  | |- context [match validate.modconfig_NewRegistry ?sdk with _ => _ end] =>
      destruct (validate.modconfig_NewRegistry sdk) eqn:?
  | |- context [match validate.load_Instances ?sdk ?a ?r with _ => _ end] =>
      destruct (validate.load_Instances sdk a r) eqn:?
  | |- context [match validate.Instance_Err ?sdk ?i with _ => _ end] =>
      destruct (validate.Instance_Err sdk i) eqn:?
  | |- context [match validate.Value_Err ?sdk ?v with _ => _ end] =>
      destruct (validate.Value_Err sdk v) eqn:?
  | |- context [if negb (validate.Value_Exists ?sdk ?v) then _ else _] =>
      destruct (validate.Value_Exists sdk v) eqn:?
  | |- context [match validate.yaml_Extract ?sdk ?f ?c with _ => _ end] =>
      destruct (validate.yaml_Extract sdk f c) eqn:?
  | |- context [match validate.Value_Validate ?sdk ?v with _ => _ end] =>
      destruct (validate.Value_Validate sdk v) eqn:?
  end.

Ltac vrun :=
  unfold validate.ValidateGemaraArtifact, trigger;
  cbn [validate.runCue bind validate.answer negb];
  repeat (vstep; cbn [validate.runCue bind validate.answer negb]).


(** ** Results and function errors of the validator *)

Lemma resolves_intro (sdk : validate.Cue) (definition : string)
  (reg : validate.Registry sdk) (inst : validate.build_Instance sdk)
  (rest : list (validate.build_Instance sdk)) :
  validate.modconfig_NewRegistry sdk = Ok reg ->
  validate.load_Instances sdk [validate.gemaraModulePath] reg = inst :: rest ->
  validate.Instance_Err sdk inst = None ->
  validate.Value_Err sdk
    (validate.Context_BuildInstance sdk (validate.cuecontext_New sdk) inst) = None ->
  validate.Value_Exists sdk
    (validate.Value_LookupPath sdk
       (validate.Context_BuildInstance sdk (validate.cuecontext_New sdk) inst)
       (validate.cue_ParsePath sdk
          (if negb (strings.HasPrefix definition "#") then "#" ++ definition
           else definition))) = true ->
  SchemaResolves sdk definition.
Proof.
  intros. exists reg, inst, rest. unfold entrypoint_of, normalized. auto.
Qed.

Lemma resolves_elim (sdk : validate.Cue) (definition : string) (P : Prop) :
  SchemaResolves sdk definition ->
  (forall reg inst rest,
      validate.modconfig_NewRegistry sdk = Ok reg ->
      validate.load_Instances sdk [validate.gemaraModulePath] reg = inst :: rest ->
      validate.Instance_Err sdk inst = None ->
      validate.Value_Err sdk
        (validate.Context_BuildInstance sdk (validate.cuecontext_New sdk) inst) = None ->
      validate.Value_Exists sdk
        (validate.Value_LookupPath sdk
           (validate.Context_BuildInstance sdk (validate.cuecontext_New sdk) inst)
           (validate.cue_ParsePath sdk
              (if negb (strings.HasPrefix definition "#") then "#" ++ definition
               else definition))) = true ->
      P) ->
  P.
Proof.
  intros [reg [inst [rest [H1 [H2 [H3 [H4 H5]]]]]]] HP.
  unfold entrypoint_of, normalized in H5. eauto.
Qed.

(** X11. The validator returns a result (not a function error) exactly
    when it got as far as parsing the document, and it parses the document
    exactly when both inputs are non-empty and the schema side resolves, from
    the registry down to the definition.  So a function error never says
    anything about the document, and no document is parsed against a
    definition that does not exist. *)
Theorem result_iff_document_parsed (sdk : validate.Cue)
  (input : validate.InputValidateGemaraArtifact) :
  let r := validate.runCue (validate.ValidateGemaraArtifact sdk input) in
  (isOk (fst r) = true <-> In validate.CExtract (map validate.call (snd r)))
  /\ (In validate.CExtract (map validate.call (snd r)) <->
      validate.ArtifactContent input <> ""
      /\ validate.Definition_ input <> ""
      /\ SchemaResolves sdk (validate.Definition_ input)).
Proof.
  cbv zeta. split.
  - vrun; cbn [fst snd map validate.call isOk isErr negb In]; split;
      try discriminate; try tauto;
      intros H; exfalso;
      repeat (destruct H as [H | H]; [discriminate H |]); exact H.
  - split.
    + vrun; cbn [snd map validate.call In];
        try (intros H; exfalso;
             repeat (destruct H as [H | H]; [discriminate H |]); exact H);
        intros _;
        (split; [apply isEmpty_false; assumption |]);
        (split; [apply isEmpty_false; assumption |]);
        eapply resolves_intro; eassumption.
    + intros [Hc [Hd Hres]].
      apply isEmpty_false in Hc. apply isEmpty_false in Hd.
      apply (resolves_elim sdk _ _ Hres). intros reg inst rest H1 H2 H3 H4 H5.
      unfold validate.ValidateGemaraArtifact, trigger. rewrite Hc, Hd.
      cbn [validate.runCue bind validate.answer]. rewrite H1.
      cbn [validate.runCue bind validate.answer]. rewrite H2.
      cbn [validate.runCue bind validate.answer]. rewrite H3.
      cbn [validate.runCue bind validate.answer]. rewrite H4.
      cbn [validate.runCue bind validate.answer]. rewrite H5.
      cbn [validate.runCue bind validate.answer negb].
      repeat (vstep; cbn [validate.runCue bind validate.answer negb]);
        cbn [snd map validate.call In]; tauto.
Qed.

(** X12. A function error of the validator is one of seven: a missing
    input, the registry, the module (none returned, or the first in error),
    the schema build, or the definition, which the message names with its
    marker. *)
Theorem function_errors (sdk : validate.Cue)
  (input : validate.InputValidateGemaraArtifact) (e : error) :
  fst (validate.runCue (validate.ValidateGemaraArtifact sdk input)) = Err e ->
  e = "artifact_content is required"
  \/ e = "definition is required"
  \/ (exists m, validate.modconfig_NewRegistry sdk = Err m
                /\ e = "failed to create CUE registry: " ++ m)
  \/ e = "failed to load module: no instances returned"
  \/ (exists m, e = "failed to load module: " ++ m)
  \/ (exists m, e = "failed to build schema: " ++ m)
  \/ e = "definition " ++ normalized (validate.Definition_ input)
           ++ " not found in schema".
Proof.
  vrun; cbn [fst]; intros H; inversion H; subst; clear H;
    unfold normalized;
    first [ left; reflexivity
          | right; left; reflexivity
          | do 2 right; left; eexists; split; reflexivity
          | do 3 right; left; reflexivity
          | do 4 right; left; eexists; reflexivity
          | do 5 right; left; eexists; reflexivity
          | do 6 right; reflexivity ].
Qed.

Lemma function_errors_witness :
  "definition #Nope not found in schema"
  = "definition " ++ normalized "Nope" ++ " not found in schema".
Proof.
  destruct (function_errors Fixtures.toyCue
              {| validate.ArtifactContent := "invalid: yaml: [unclosed";
                 validate.Definition_ := "Nope" |}
              "definition #Nope not found in schema" eq_refl)
    as [H | [H | [[m [H _]] | [H | [[m H] | [[m H] | H]]]]]];
    try discriminate H.
  exact H.
Defined.



(** ** The module's instances *)

Ltac vcbn :=
  cbn [validate.runCue bind validate.answer negb with_instances
       validate.modconfig_NewRegistry validate.load_Instances
       validate.Instance_Err validate.cuecontext_New
       validate.Context_BuildInstance validate.Context_BuildFile
       validate.Value_Err validate.cue_ParsePath validate.Value_LookupPath
       validate.Value_Exists validate.Value_Unify validate.Value_Validate
       validate.yaml_Extract].

(** X14. Of the instances [load.Instances] returns, the validator looks at
    the first alone: two SDKs that differ only in the instances after the
    first make the validator do and return the same, whatever errors the
    other instances carry. *)
Theorem first_instance_decides (sdk : validate.Cue)
  (instances : list string -> validate.Registry sdk
               -> list (validate.build_Instance sdk))
  (input : validate.InputValidateGemaraArtifact) :
  (forall args reg,
      hd_error (instances args reg) = hd_error (validate.load_Instances sdk args reg)) ->
  validate.runCue (validate.ValidateGemaraArtifact (with_instances sdk instances) input)
  = validate.runCue (validate.ValidateGemaraArtifact sdk input).
Proof.
  intros Hhd.
  unfold validate.ValidateGemaraArtifact, trigger.
  destruct (strings.isEmpty (validate.ArtifactContent input)); [reflexivity |].
  destruct (strings.isEmpty (validate.Definition_ input)); [reflexivity |].
  vcbn.
  destruct (validate.modconfig_NewRegistry sdk) as [reg | m]; [| reflexivity].
  vcbn.
  specialize (Hhd [validate.gemaraModulePath] reg).
  destruct (instances [validate.gemaraModulePath] reg) as [| i1 r1];
    destruct (validate.load_Instances sdk [validate.gemaraModulePath] reg) as [| i2 r2];
    try discriminate Hhd; [reflexivity |].
  inversion Hhd; subst. vcbn.
  repeat (vstep; vcbn); reflexivity.
Qed.

(** A module of two instances, the second one in error or not there. *)
Lemma first_instance_decides_witness :
  validate.runCue
    (validate.ValidateGemaraArtifact
       (with_instances Fixtures.toyCue (fun _ _ => [tt; tt]))
       {| validate.ArtifactContent := Fixtures.manifest;
          validate.Definition_ := "#ControlCatalog" |})
  = validate.runCue
      (validate.ValidateGemaraArtifact Fixtures.toyCue
         {| validate.ArtifactContent := Fixtures.manifest;
            validate.Definition_ := "#ControlCatalog" |}).
Proof.
  apply (first_instance_decides Fixtures.toyCue (fun _ _ => [tt; tt])).
  reflexivity.
Defined.

(** ** The lines of the diagnostics *)

Lemma Split_no_sep (s : string) (sep : ascii) (piece : string) :
  In piece (strings.Split s sep) -> has_byte sep piece = false.
Proof.
  revert piece. induction s as [| c s IH]; intros piece Hin; simpl in Hin.
  - destruct Hin as [<- | []]. reflexivity.
  - destruct (Ascii.eqb_spec c sep) as [-> | Hne].
    + destruct Hin as [<- | Hin]; [reflexivity | apply IH; exact Hin].
    + destruct (strings.Split s sep) as [| h t] eqn:Hs.
      * destruct Hin as [<- | []]. simpl.
        apply Ascii.eqb_neq in Hne. rewrite Hne. reflexivity.
      * destruct Hin as [<- | Hin].
        -- simpl. apply Ascii.eqb_neq in Hne. rewrite Hne. simpl.
           apply IH. left. reflexivity.
        -- apply IH. right. exact Hin.
Qed.

(** X15. Each diagnostic the validator reports for a schema mismatch is one
    line: it contains no line break, it is not blank, and it is reported as
    it stands in the error text, its own leading and trailing white space
    kept (only the text as a whole is trimmed). *)
Theorem diagnostics_are_lines (errorOutput line : string) :
  In line (nonblank_lines errorOutput) ->
  has_byte LF line = false
  /\ strings.TrimSpace line <> ""
  /\ In line (strings.Split (strings.TrimSpace errorOutput) LF).
Proof.
  unfold nonblank_lines. intros Hin. apply filter_In in Hin.
  destruct Hin as [Hin Hnb]. repeat split.
  - eapply Split_no_sep. exact Hin.
  - apply negb_true_iff in Hnb. apply isEmpty_false. exact Hnb.
  - exact Hin.
Qed.

(** An indented second line keeps its indentation. *)
Lemma diagnostics_are_lines_witness :
  has_byte LF "    conflicting values" = false
  /\ strings.TrimSpace "    conflicting values" <> ""
  /\ In "    conflicting values"
        (strings.Split
           (strings.TrimSpace ("  a: error" ++ String LF "    conflicting values" ++ String LF ""))
           LF).
Proof.
  apply (diagnostics_are_lines
           ("  a: error" ++ String LF "    conflicting values" ++ String LF "")
           "    conflicting values").
  vm_compute. right. left. reflexivity.
Defined.

(** ** What the advisory mode registers *)

(** X16. Every resource the advisory mode registers answers for itself: a
    successful read requested under the registered URI returns one content
    element that carries that same URI and the MIME type the registration
    advertises.  The mode registers the lexicon under two different URIs and
    two tools under different names, so no registration replaces another. *)
Theorem registered_resources_answer {codec : Codec} (env : Env) (w : World)
  (r : mode.Resource) (h : mode.ResourceHandler) (result : mcp.ReadResourceResult) :
  In (r, h) (mode.resources_of mode.AdvisoryMode_Register) ->
  fst (run env (h codec {| mcp.Params_URI := mode.URI r |}) w) = Ok result ->
  (exists text,
      mcp.Contents result
      = [ {| mcp.URI := mode.URI r;
             mcp.MIMEType := mode.MIMEType r;
             mcp.Text := text |} ])
  /\ NoDup (map (fun rh => mode.URI (fst rh))
              (mode.resources_of mode.AdvisoryMode_Register))
  /\ NoDup (map (fun th => mode.ToolName (fst th))
              (mode.tools_of mode.AdvisoryMode_Register)).
Proof.
  intros Hin Hread. split; [| split].
  - simpl in Hin. destruct Hin as [Hin | [Hin | []]]; inversion Hin; subst; clear Hin;
      match type of Hread with
      | fst (run env (HandleLexiconResource ?req) w) = _ =>
          destruct (HandleLexiconResource_serves env req w) as [[[e He] | Hs] _]
      end;
      try congruence;
      rewrite Hread in Hs; symmetry in Hs;
      destruct (served_Ok _ _ _ Hs) as [text [_ Hc]];
      exists text; exact Hc.
  - simpl. repeat constructor; simpl; intuition discriminate.
  - simpl. repeat constructor; simpl; intuition discriminate.
Qed.

(** The README's resource, read from a warm cache. *)
Lemma registered_resources_answer_witness :
  exists text,
    mcp.Contents
      {| mcp.Contents :=
           [ {| mcp.URI := "gemara://lexicon";
                mcp.MIMEType := "application/json";
                mcp.Text := Fixtures.encode [Fixtures.test] |} ] |}
    = [ {| mcp.URI := "gemara://lexicon";
           mcp.MIMEType := "application/json";
           mcp.Text := text |} ].
Proof.
  refine (proj1 (@registered_resources_answer Fixtures.lineCodec Fixtures.serving
                   Fixtures.warm mode.MetadataLexiconResourceAlias
                   (@HandleLexiconResource) _ _ _)).
  - right. left. reflexivity.
  - vm_compute. reflexivity.
Defined.
